(** * Row-Col-Game: a shallow embedding of [board_manager.py],
    [strategies.py] and the turn loop of [game_engine.py].

    The board is a mutable object; every method is modelled as a
    computation in a state-and-exception monad over the board record,
    so that the simulate-then-restore discipline of the strategies is
    modelled as the code performs it (in-place writes into the grid). *)

From Stdlib Require Import ZArith Lia.
From Stdlib Require Strings.String Strings.Ascii.
From stdpp Require Import base list.
Import String.StringSyntax Ascii.AsciiSyntax.

Open Scope Z_scope.

(** ** Data model *)

(** [Position = Tuple[int, int]] *)
Definition Position : Type := (Z * Z)%type.

(** [BoardManager]: [size], [board : List[List[Optional[int]]]] and
    [last_removed_pos : Optional[Position]].  The random generator is only
    used by [_init_board]; it is modelled in the construction section. *)
Record Board := mkBoard {
  size : Z;
  grid : list (list (option Z));
  last_removed_pos : option Position
}.

Definition with_grid (b : Board) (g : list (list (option Z))) : Board :=
  mkBoard (size b) g (last_removed_pos b).

Definition with_last (b : Board) (p : option Position) : Board :=
  mkBoard (size b) (grid b) p.

(** Python exceptions raised by the modelled code. *)
Inductive PyExc := ValueError | IndexError | TypeError.

Inductive Res (A : Type) := Ok (a : A) | Exc (e : PyExc).
Arguments Ok {A} a.
Arguments Exc {A} e.

(** Computations on the (mutable) board. *)
Definition M (A : Type) : Type := Board -> Res A * Board.

Definition retM {A} (a : A) : M A := fun b => (Ok a, b).
Definition bindM {A B} (m : M A) (f : A -> M B) : M B := fun b =>
  match m b with
  | (Ok a, b') => f a b'
  | (Exc e, b') => (Exc e, b')
  end.

Notation "'let*' x := m 'in' k" := (bindM m (fun x => k))
  (at level 200, x name, m at level 100, k at level 200).

Definition raise {A} (e : PyExc) : M A := fun b => (Exc e, b).
Definition get_board : M Board := fun b => (Ok b, b).
Definition put_board (b' : Board) : M unit := fun _ => (Ok tt, b').

(** Python list indexing: negative indices count from the end,
    anything else out of range raises [IndexError]. *)
Definition py_idx (len : nat) (i : Z) : option nat :=
  if (0 <=? i) && (i <? Z.of_nat len) then Some (Z.to_nat i)
  else if (- Z.of_nat len <=? i) && (i <? 0) then Some (Z.to_nat (Z.of_nat len + i))
  else None.

Definition py_nth {A} (l : list A) (i : Z) : option A :=
  py_idx (length l) i ≫= fun k => l !! k.

(** [range(n)] *)
Definition range (n : Z) : list Z := map Z.of_nat (seq 0 (Z.to_nat n)).

(** [self.board[r][c]] *)
Definition get_cell (r c : Z) : M (option Z) := fun b =>
  match py_nth (grid b) r ≫= fun row => py_nth row c with
  | Some v => (Ok v, b)
  | None => (Exc IndexError, b)
  end.

(** [self.board[r][c] = v] *)
Definition set_cell (r c : Z) (v : option Z) : M unit := fun b =>
  match py_idx (length (grid b)) r with
  | None => (Exc IndexError, b)
  | Some i =>
      match grid b !! i with
      | None => (Exc IndexError, b)
      | Some row =>
          match py_idx (length row) c with
          | None => (Exc IndexError, b)
          | Some j => (Ok tt, with_grid b (<[i := <[j := v]> row]> (grid b)))
          end
      end
  end.

(** [x or 0] on an [Optional[int]] *)
Definition or0 (v : option Z) : Z :=
  match v with Some x => x | None => 0 end.

(** ** BoardManager methods *)

Definition in_bounds (b : Board) (pos : Position) : bool :=
  let '(r, c) := pos in
  (0 <=? r) && (r <? size b) && (0 <=? c) && (c <? size b).

Definition is_available (pos : Position) : M bool := fun b =>
  let '(r, c) := pos in
  if in_bounds b pos then (let* v := get_cell r c in retM (bool_decide (v <> None))) b
  else (Ok false, b).

Definition get_value (pos : Position) : M (option Z) :=
  let '(r, c) := pos in get_cell r c.

Definition remove_and_get (pos : Position) : M Z :=
  let* av := is_available pos in
  if negb av then raise ValueError
  else
    let '(r, c) := pos in
    let* val := get_cell r c in
    let* _ := set_cell r c None in
    let* b := get_board in
    let* _ := put_board (with_last b (Some (r, c))) in
    match val with Some v => retM v | None => raise TypeError end.

(** A [for] loop that appends the visited positions passing [keep]
    to the accumulator [out]. *)
Fixpoint for_append (ps : list Position) (keep : Position -> M bool)
    (out : list Position) : M (list Position) :=
  match ps with
  | [] => retM out
  | p :: ps' => let* k := keep p in for_append ps' keep (if k then out ++ [p] else out)
  end.

(** The cells in the order of [for r in range(n): for c in range(n)]. *)
Definition cells (n : Z) : list Position :=
  flat_map (fun r => map (fun c => (r, c)) (range n)) (range n).

Definition cell_not_none (p : Position) : M bool :=
  let '(r, c) := p in let* v := get_cell r c in retM (bool_decide (v <> None)).

Definition get_all_available_positions : M (list Position) :=
  let* b := get_board in
  for_append (cells (size b)) cell_not_none [].

Definition get_allowed_positions (last_pos : Position) : M (list Position) :=
  let '(r0, c0) := last_pos in
  let* b := get_board in
  (* Same row *)
  let* allowed := for_append (map (fun c => (r0, c)) (range (size b))) cell_not_none [] in
  (* Same column (skip the intersection cell to avoid duplicate) *)
  for_append (map (fun r => (r, c0)) (range (size b)))
    (fun p : Position => if bool_decide (p.1 <> r0) then cell_not_none p else retM false)
    allowed.

(** The double loop of [max_remaining_value]. *)
Fixpoint max_loop (ps : list Position) (max_val : Z) : M Z :=
  match ps with
  | [] => retM max_val
  | (r, c) :: ps' =>
      let* val := get_cell r c in
      match val with
      | Some v => if v >? max_val then max_loop ps' v else max_loop ps' max_val
      | None => max_loop ps' max_val
      end
  end.

Definition max_remaining_value : M Z :=
  let* b := get_board in
  max_loop (cells (size b)) 0.

(** The legal set computed by every strategy and by the turn loop:
    [board.get_all_available_positions() if last_pos is None
     else board.get_allowed_positions(last_pos)]. *)
Definition legal_set (last_pos : option Position) : M (list Position) :=
  match last_pos with
  | None => get_all_available_positions
  | Some p => get_allowed_positions p
  end.

(** ** strategies.py *)

(** Python's comparison of two tuples of ints: lexicographic, and a
    proper prefix is smaller. *)
Fixpoint tuple_cmp (a b : list Z) : comparison :=
  match a, b with
  | [], [] => Eq
  | [], _ :: _ => Lt
  | _ :: _, [] => Gt
  | x :: xs, y :: ys =>
      match Z.compare x y with
      | Eq => tuple_cmp xs ys
      | c => c
      end
  end.

(** The loop of [_best_by_key]. *)
Fixpoint best_loop (key_fn : Position -> M (list Z)) (reverse : bool)
    (ps : list Position) (best_pos : option Position)
    (best_key : option (list Z)) : M (option Position) :=
  match ps with
  | [] => retM best_pos
  | pos :: ps' =>
      let* k := key_fn pos in
      match best_key with
      | None => best_loop key_fn reverse ps' (Some pos) (Some k)
      | Some bk =>
          if (if reverse then bool_decide (tuple_cmp k bk = Gt)
              else bool_decide (tuple_cmp k bk = Lt))
          then best_loop key_fn reverse ps' (Some pos) (Some k)
          else best_loop key_fn reverse ps' best_pos best_key
      end
  end.

(** [_best_by_key(candidates, key_fn, reverse)] *)
Definition _best_by_key (candidates : list Position)
    (key_fn : Position -> M (list Z)) (reverse : bool) : M (option Position) :=
  best_loop key_fn reverse candidates None None.

(** The prologue shared by the four strategies. *)
Definition allowed_or_raise (last_pos : option Position) : M (list Position) :=
  let* allowed := legal_set last_pos in
  match allowed with
  | [] => raise ValueError
  | _ => retM allowed
  end.

Definition strategy_greedy_maximize (last_pos : option Position) : M (option Position) :=
  let* allowed := allowed_or_raise last_pos in
  _best_by_key allowed (fun p => let* v := get_value p in retM [or0 v]) true.

(** [min(gen)] of a non-empty generator of ints. *)
Definition py_min (xs : list Z) : Z :=
  match xs with
  | [] => 0
  | x :: xs' => fold_left Z.min xs' x
  end.

Fixpoint mapM {A B} (f : A -> M B) (l : list A) : M (list B) :=
  match l with
  | [] => retM []
  | x :: l' => let* y := f x in let* ys := mapM f l' in retM (y :: ys)
  end.

Definition future_min_metric (pos : Position) : M (list Z) :=
  let* v := get_value pos in
  let val_now := or0 v in
  (* Simulate removal and compute opponent's weakest option *)
  let '(r, c) := pos in
  let* saved := get_cell r c in
  let* _ := set_cell r c None in
  let* opp_options := get_allowed_positions pos in
  let* min_opp_val :=
    match opp_options with
    | [] => retM 0
    | _ => let* vs := mapM (fun p => let* w := get_value p in retM (or0 w)) opp_options in
           retM (py_min vs)
    end in
  let* _ := set_cell r c saved in
  retM [val_now - min_opp_val; val_now].

Definition strategy_maximize_future_min (last_pos : option Position) : M (option Position) :=
  let* allowed := allowed_or_raise last_pos in
  _best_by_key allowed future_min_metric true.

Definition opponent_options_metric (pos : Position) : M (list Z) :=
  let '(r, c) := pos in
  let* saved := get_cell r c in
  let* _ := set_cell r c None in
  let* opp_options := get_allowed_positions pos in
  let count := Z.of_nat (length opp_options) in
  let* _ := set_cell r c saved in
  let* v := get_value pos in
  retM [- count; or0 v].

Definition strategy_minimize_opponent_options (last_pos : option Position) : M (option Position) :=
  let* allowed := allowed_or_raise last_pos in
  _best_by_key allowed opponent_options_metric true.

(** The [for p in opp_options] loop of the preservation metric, with the
    pair [(contains_global_max, top_hits)]. *)
Fixpoint count_global_max (global_max : Z) (ps : list Position)
    (acc : Z * Z) : M (Z * Z) :=
  match ps with
  | [] => retM acc
  | p :: ps' =>
      let* w := get_value p in
      if bool_decide (or0 w = global_max)
      then count_global_max global_max ps' (1, acc.2 + 1)
      else count_global_max global_max ps' acc
  end.

Definition high_value_metric (global_max : Z) (pos : Position) : M (list Z) :=
  let '(r, c) := pos in
  let* saved := get_cell r c in
  let* _ := set_cell r c None in
  let* opp_options := get_allowed_positions pos in
  let* hits := count_global_max global_max opp_options (0, 0) in
  let* _ := set_cell r c saved in
  let* v := get_value pos in
  retM [- hits.1; - hits.2; or0 v].

Definition strategy_high_value_preservation (last_pos : option Position) : M (option Position) :=
  let* allowed := allowed_or_raise last_pos in
  let* global_max := max_remaining_value in
  _best_by_key allowed (high_value_metric global_max) true.

(** [STRATEGY_REGISTRY] *)
Inductive Strategy :=
  Greedy | MaximizeFutureMin | MinimizeOpponentOptions | PreserveHighValues.

Definition run_strategy (s : Strategy) : option Position -> M (option Position) :=
  match s with
  | Greedy => strategy_greedy_maximize
  | MaximizeFutureMin => strategy_maximize_future_min
  | MinimizeOpponentOptions => strategy_minimize_opponent_options
  | PreserveHighValues => strategy_high_value_preservation
  end.

(** ** Board construction: [BoardManager.__init__] and [_init_board] *)

(** [random.Random]: a generator state seeded from an integer seed, or
    from operating-system entropy when the seed is [None];
    [randint(lo, hi)] draws from the state and advances it. *)
Record RandomGen := {
  rstate : Type;
  seeded : Z -> rstate;
  from_entropy : Z -> rstate;
  randint : Z -> Z -> rstate -> Z * rstate
}.

Definition Random (g : RandomGen) (seed : option Z) (entropy : Z) : rstate g :=
  match seed with
  | Some s => seeded g s
  | None => from_entropy g entropy
  end.

(** [row.append(int(preset_board[idx])); idx += 1], [k] times. *)
Fixpoint preset_row (preset : list Z) (k : nat) (idx : Z) : Res (list (option Z) * Z) :=
  match k with
  | O => Ok ([], idx)
  | S k' =>
      match py_nth preset idx with
      | None => Exc IndexError
      | Some v =>
          match preset_row preset k' (idx + 1) with
          | Ok (row, idx') => Ok (Some v :: row, idx')
          | Exc e => Exc e
          end
      end
  end.

(** The outer [for _ in range(self.size)] loop of the preset branch. *)
Fixpoint preset_grid (preset : list Z) (n : nat) (k : nat) (idx : Z)
    : Res (list (list (option Z))) :=
  match k with
  | O => Ok []
  | S k' =>
      match preset_row preset n idx with
      | Exc e => Exc e
      | Ok (row, idx') =>
          match preset_grid preset n k' idx' with
          | Ok g => Ok (row :: g)
          | Exc e => Exc e
          end
      end
  end.

(** [[self.random.randint(1, 9) for _ in range(size)]], [k] times. *)
Fixpoint random_row (g : RandomGen) (k : nat) (st : rstate g) : list (option Z) * rstate g :=
  match k with
  | O => ([], st)
  | S k' =>
      let '(v, st1) := randint g 1 9 st in
      let '(row, st2) := random_row g k' st1 in
      (Some v :: row, st2)
  end.

Fixpoint random_grid (g : RandomGen) (n k : nat) (st : rstate g)
    : list (list (option Z)) * rstate g :=
  match k with
  | O => ([], st)
  | S k' =>
      let '(row, st1) := random_row g n st in
      let '(rows, st2) := random_grid g n k' st1 in
      (row :: rows, st2)
  end.

Definition _init_board (g : RandomGen) (size : Z) (st : rstate g)
    (preset_board : option (list Z)) : Res (list (list (option Z))) :=
  match preset_board with
  | Some preset =>
      let expected := size * size in
      if bool_decide (Z.of_nat (length preset) <> expected) then Exc ValueError
      else preset_grid preset (Z.to_nat size) (Z.to_nat size) 0
  | None => Ok (random_grid g (Z.to_nat size) (Z.to_nat size) st).1
  end.

(** [BoardManager(size, seed, preset_board)]; [entropy] stands for the
    operating-system randomness [random.Random(None)] draws from. *)
Definition BoardManager_init (g : RandomGen) (size : Z) (seed : option Z)
    (preset_board : option (list Z)) (entropy : Z) : Res Board :=
  match _init_board g size (Random g seed entropy) preset_board with
  | Ok gr => Ok (mkBoard size gr None)
  | Exc e => Exc e
  end.

(** ** The turn loop of [game_engine.start_game] *)

Inductive Player := PA | PB.

(** A player is driven by human input or by a registered strategy. *)
Inductive Controller := Human | Computer (s : Strategy).

Inductive Mode := H_VS_H | H_VS_C | C_VS_C.

(** [controller_for(player)]; an unset strategy raises [ValueError]. *)
Definition controller_for (mode : Mode) (a_strategy b_strategy : option Strategy)
    (player : Player) : Res Controller :=
  match mode with
  | H_VS_H => Ok Human
  | H_VS_C =>
      match player with
      | PA => Ok Human
      | PB => match b_strategy with Some s => Ok (Computer s) | None => Exc ValueError end
      end
  | C_VS_C =>
      match a_strategy, b_strategy with
      | Some sa, Some sb => Ok (Computer (match player with PA => sa | PB => sb end))
      | _, _ => Exc ValueError
      end
  end.

(** The checks of the human input loop: a parsed position is accepted
    only when it is in bounds, available, and (after the opening move)
    in the row or column of the previous move; otherwise the loop
    prompts again. *)
Definition human_accepts (b : Board) (last_pos : option Position) (pos : Position) : bool :=
  in_bounds b pos &&
  match is_available pos b with (Ok true, _) => true | _ => false end &&
  match last_pos with
  | None => true
  | Some (r0, c0) => (pos.1 =? r0) || (pos.2 =? c0)
  end.

Record GameState := mkGame {
  gs_board : Board;
  gs_last : option Position;
  gs_current : Player;
  a_score : Z;
  b_score : Z;
  round_num : Z
}.

(** The move obtained from the controller of the current player. *)
Inductive turn_move : Controller -> option Position -> Board -> Position -> Board -> Prop :=
| move_human b lp pos :
    human_accepts b lp pos = true -> turn_move Human lp b pos b
| move_computer s b lp pos b' :
    run_strategy s lp b = (Ok (Some pos), b') -> turn_move (Computer s) lp b pos b'.

(** One executed move of the [while True] loop: the legal set is
    non-empty, a move is obtained and [remove_and_get] executes it. *)
Inductive game_step (ctrl_A ctrl_B : Controller) : GameState -> GameState -> Prop :=
| step_move st allowed b1 move b2 val_now b3 :
    legal_set (gs_last st) (gs_board st) = (Ok allowed, b1) ->
    allowed <> [] ->
    turn_move (match gs_current st with PA => ctrl_A | PB => ctrl_B end)
      (gs_last st) b1 move b2 ->
    remove_and_get move b2 = (Ok val_now, b3) ->
    game_step ctrl_A ctrl_B st
      (mkGame b3 (Some move) (match gs_current st with PA => PB | PB => PA end)
         (match gs_current st with PA => a_score st + val_now | PB => a_score st end)
         (match gs_current st with PA => b_score st | PB => b_score st + val_now end)
         (round_num st + 1)).

(** The loop leaves through [break]: the legal set is empty. *)
Definition terminated (st : GameState) : Prop :=
  exists b1, legal_set (gs_last st) (gs_board st) = (Ok [], b1).

(** [k] executed moves. *)
Inductive game_steps (ctrl_A ctrl_B : Controller) : nat -> GameState -> GameState -> Prop :=
| steps_refl st : game_steps ctrl_A ctrl_B 0 st st
| steps_cons k st st' st'' :
    game_step ctrl_A ctrl_B st st' -> game_steps ctrl_A ctrl_B k st' st'' ->
    game_steps ctrl_A ctrl_B (S k) st st''.

(** ** Specification-side notions *)

(** The value held by cell [(r, c)] (meaningful in bounds). *)
Definition cell (b : Board) (r c : Z) : option Z :=
  match grid b !! Z.to_nat r ≫= fun row => row !! Z.to_nat c with
  | Some v => v
  | None => None
  end.

Definition present (b : Board) (p : Position) : bool :=
  bool_decide (cell b p.1 p.2 <> None).

(** A position of the board that has not been removed. *)
Definition available (b : Board) (p : Position) : Prop :=
  in_bounds b p = true /\ cell b p.1 p.2 <> None.

(** The grid is [size] rows of [size] cells. *)
Definition wf (b : Board) : Prop :=
  length (grid b) = Z.to_nat (size b) /\
  Forall (fun row => length row = Z.to_nat (size b)) (grid b).

(** The board with cell [(r, c)] overwritten. *)
Definition upd_cell (b : Board) (r c : Z) (v : option Z) : Board :=
  with_grid b (<[Z.to_nat r := <[Z.to_nat c := v]> (default [] (grid b !! Z.to_nat r))]> (grid b)).

(** The board as seen while candidate [p] is simulated as taken. *)
Definition sim_remove (b : Board) (p : Position) : Board := upd_cell b p.1 p.2 None.

(** Row cells of [lastPos] (ascending column) that are present, then
    column cells (ascending row) other than the intersection. *)
Definition allowed_spec (b : Board) (last_pos : Position) : list Position :=
  List.filter (present b) (map (fun c => (last_pos.1, c)) (range (size b))) ++
  List.filter (fun p => bool_decide (p.1 <> last_pos.1) && present b p)
    (map (fun r => (r, last_pos.2)) (range (size b))).

Definition legal_spec (b : Board) (last_pos : option Position) : list Position :=
  match last_pos with
  | None => List.filter (present b) (cells (size b))
  | Some p => allowed_spec b p
  end.

(** The opponent's legal replies once [p] is (simulated as) taken. *)
Definition opp_replies (b : Board) (p : Position) : list Position :=
  allowed_spec (sim_remove b p) p.

Definition value0 (b : Board) (p : Position) : Z := or0 (cell b p.1 p.2).

Fixpoint list_min (xs : list Z) : Z :=
  match xs with
  | [] => 0
  | [x] => x
  | x :: xs' => Z.min x (list_min xs')
  end.

(** The ranking key of MaximizeFutureMin, as the spec words it. *)
Definition future_min_key (b : Board) (p : Position) : list Z :=
  let opp := map (value0 (sim_remove b p)) (opp_replies b p) in
  let worst := match opp with [] => 0 | _ => list_min opp end in
  [value0 b p - worst; value0 b p].

(** The ranking key of PreserveHighValues for a precomputed global maximum. *)
Definition high_value_key (global_max : Z) (b : Board) (p : Position) : list Z :=
  let hits := List.filter (fun q => value0 (sim_remove b p) q =? global_max) (opp_replies b p) in
  [- (if existsb (fun q => value0 (sim_remove b p) q =? global_max) (opp_replies b p)
      then 1 else 0);
   - Z.of_nat (length hits);
   value0 b p].

(** [p] is the first candidate of [l] whose key is maximal. *)
Definition first_argmax (key : Position -> list Z) (l : list Position) (p : Position) : Prop :=
  exists i, l !! i = Some p /\
    (forall j q, l !! j = Some q -> tuple_cmp (key q) (key p) <> Gt) /\
    (forall j q, (j < i)%nat -> l !! j = Some q -> tuple_cmp (key p) (key q) = Gt).

(** The board after a successful [remove_and_get(pos)]. *)
Definition removed_board (b : Board) (pos : Position) : Board :=
  with_last (upd_cell b pos.1 pos.2 None) (Some pos).

(** The largest value left on the board, and [0] when none is larger. *)
Definition max_spec (b : Board) : Z :=
  fold_left (fun m q => match cell b q.1 q.2 with Some v => Z.max m v | None => m end)
    (cells (size b)) 0.

(** The ranking key each strategy maximises, as the spec words it. *)
Definition strategy_key (s : Strategy) (b : Board) : Position -> list Z :=
  match s with
  | Greedy => fun p => [value0 b p]
  | MaximizeFutureMin => future_min_key b
  | MinimizeOpponentOptions => fun p => [- Z.of_nat (length (opp_replies b p)); value0 b p]
  | PreserveHighValues => high_value_key (max_spec b) b
  end.

(** The spec's end-to-end example: size 3, preset [1..9]. *)
Definition example_preset : list Z := [1; 2; 3; 4; 5; 6; 7; 8; 9].

Definition example_board : Board :=
  mkBoard 3 [[Some 1; Some 2; Some 3]; [Some 4; Some 5; Some 6]; [Some 7; Some 8; Some 9]] None.

(** ... after the opening move at (0,0). *)
Definition example_after_opening : Board :=
  mkBoard 3 [[None; Some 2; Some 3]; [Some 4; Some 5; Some 6]; [Some 7; Some 8; Some 9]]
    (Some (0, 0)).

(** A generator with a one-point state.  The preset branch of
    [_init_board] never consults the generator, so any generator serves
    to run it on concrete inputs. *)
Definition unit_gen : RandomGen :=
  {| rstate := unit; seeded := fun _ => tt; from_entropy := fun _ => tt;
     randint := fun lo _ st => (lo, st) |}.

(** Number of cells still on the board. *)
Definition avail_count (b : Board) : nat := length (List.filter (present b) (cells (size b))).

(** The loop invariant: a well-formed board and an in-bounds previous move. *)
Definition game_inv (st : GameState) : Prop :=
  wf (gs_board st) /\ forall p, gs_last st = Some p -> in_bounds (gs_board st) p = true.

(** The opening state of a computer-versus-computer game on the example board. *)
Definition example_start : GameState := mkGame example_board None PA 0 0 0.

(** ** Further functions of the board, the game loop and the menus *)

(** [any_available]: the double loop returns [True] at the first cell
    that is not [None], [False] after the last cell. *)
Fixpoint any_loop (ps : list Position) : M bool :=
  match ps with
  | [] => retM false
  | (r, c) :: ps' =>
      let* v := get_cell r c in
      match v with Some _ => retM true | None => any_loop ps' end
  end.

Definition any_available : M bool :=
  let* b := get_board in any_loop (cells (size b)).

Definition sumZ (xs : list Z) : Z := fold_right Z.add 0 xs.

(** Total value of the cells still on the board. *)
Definition board_total (b : Board) : Z := sumZ (map (value0 b) (cells (size b))).

Definition other (p : Player) : Player := match p with PA => PB | PB => PA end.

(** ** Text *)

(** A Python [str] is modelled as its list of characters; the model's
    characters are the ASCII ones (code points 0-127), on which
    [str.isspace], [str.upper] and [int] are exactly as below. *)
Definition str := list Ascii.ascii.

#[global] Instance ascii_eq_dec : EqDecision Ascii.ascii := Ascii.ascii_dec.

Definition lit (s : String.string) : str := String.list_ascii_of_string s.

(** The character of a one-character literal. *)
Definition ch (s : String.string) : Ascii.ascii :=
  match s with String.String a _ => a | String.EmptyString => Ascii.zero end.

Arguments lit s%_string_scope.
Arguments ch s%_string_scope.

Definition ord (a : Ascii.ascii) : nat := Ascii.nat_of_ascii a.

Definition ascii_text (s : str) : Prop := Forall (fun a => (ord a < 128)%nat) s.

Definition LF : Ascii.ascii := Ascii.ascii_of_nat 10.
Definition CR : Ascii.ascii := Ascii.ascii_of_nat 13.

(** [str.isspace] on an ASCII character: \t \n \v \f \r, \x1c-\x1f and space. *)
Definition py_isspace (a : Ascii.ascii) : bool :=
  ((9 <=? ord a) && (ord a <=? 13))%nat || ((28 <=? ord a) && (ord a <=? 32))%nat.

Fixpoint lstrip (s : str) : str :=
  match s with
  | [] => []
  | a :: s' => if py_isspace a then lstrip s' else s
  end.

Definition rstrip (s : str) : str := rev (lstrip (rev s)).

(** [s.strip()] *)
Definition py_strip (s : str) : str := rstrip (lstrip s).

(** [s.upper()] *)
Definition py_upper (s : str) : str :=
  map (fun a => if ((97 <=? ord a) && (ord a <=? 122))%nat then Ascii.ascii_of_nat (ord a - 32) else a) s.

(** [s.split(sep)] for a one-character separator. *)
Fixpoint py_split (sep : Ascii.ascii) (s : str) : list str :=
  match s with
  | [] => [[]]
  | a :: s' =>
      let rest := py_split sep s' in
      if decide (a = sep) then [] :: rest
      else match rest with
           | part :: parts => (a :: part) :: parts
           | [] => [[a]]
           end
  end.

(** [s.split(sep, 1)] *)
Fixpoint py_split1 (sep : Ascii.ascii) (s : str) : list str :=
  match s with
  | [] => [[]]
  | a :: s' =>
      if decide (a = sep) then [[]; s']
      else match py_split1 sep s' with
           | part :: parts => (a :: part) :: parts
           | [] => [[a]]
           end
  end.

(** [sep.join(parts)] *)
Fixpoint py_join (sep : str) (parts : list str) : str :=
  match parts with
  | [] => []
  | [p] => p
  | p :: ps => p ++ sep ++ py_join sep ps
  end.

Definition py_startswith (prefix s : str) : bool :=
  bool_decide (take (length prefix) s = prefix).

Definition py_contains (a : Ascii.ascii) (s : str) : bool := bool_decide (a ∈ s).

Definition is_digit (a : Ascii.ascii) : bool := ((48 <=? ord a) && (ord a <=? 57))%nat.

(** The digits of [int(s)]: at least one digit, single underscores only
    between digits. *)
Fixpoint int_digits (s : str) (acc : Z) (after_digit : bool) : option Z :=
  match s with
  | [] => if after_digit then Some acc else None
  | a :: s' =>
      if is_digit a then int_digits s' (acc * 10 + Z.of_nat (ord a - 48)) true
      else if bool_decide (a = ch "_") && after_digit then int_digits s' acc false
      else None
  end.

(** [int(s)] for a [str] in base 10; [None] stands for the [ValueError]
    it raises. *)
Definition py_int (s : str) : option Z :=
  match py_strip s with
  | [] => None
  | a :: s' =>
      if decide (a = ch "-") then option_map Z.opp (int_digits s' 0 false)
      else if decide (a = ch "+") then int_digits s' 0 false
      else int_digits (a :: s') 0 false
  end.

Definition digit_char (d : Z) : Ascii.ascii := Ascii.ascii_of_nat (48 + Z.to_nat d).

Fixpoint digits_of (fuel : nat) (n : Z) (acc : str) : str :=
  match fuel with
  | O => acc
  | S f =>
      let acc' := digit_char (n mod 10) :: acc in
      if n <? 10 then acc' else digits_of f (n / 10) acc'
  end.

(** [str(z)] for an int. *)
Definition py_str (z : Z) : str :=
  let d := digits_of (S (Z.to_nat (Z.abs z))) (Z.abs z) [] in
  if z <? 0 then ch "-" :: d else d.

Fixpoint traverse_opt {A B} (f : A -> option B) (l : list A) : option (list B) :=
  match l with
  | [] => Some []
  | x :: l' => f x ≫= fun y => traverse_opt f l' ≫= fun ys => Some (y :: ys)
  end.

(** [main._parse_int_list(csv)]; [None] stands for the [ValueError] of [int]. *)
Definition _parse_int_list (csv : str) : option (list Z) :=
  let parts := map py_strip (List.filter (fun p => negb (bool_decide (py_strip p = []))) (py_split (ch ",") csv)) in
  traverse_opt py_int parts.

(** [game_engine._parse_move_input(raw)] *)
Definition _parse_move_input (raw : str) : option Position :=
  match py_split (ch ",") (py_strip raw) with
  | [p0; p1] =>
      match py_int (py_strip p0) with
      | None => None
      | Some r =>
          match py_int (py_strip p1) with
          | None => None
          | Some c => Some (r - 1, c - 1)
          end
      end
  | _ => None
  end.

(** [truthy] of an optional [str]: [None] and the empty string are falsy. *)
Definition truthy (s : option str) : bool :=
  match s with Some (_ :: _) => true | _ => false end.

(** Iterating over a file opened in text mode: universal newlines turn
    \r\n and \r into \n, and each line keeps its \n terminator. *)
Fixpoint translate_newlines (s : str) : str :=
  match s with
  | [] => []
  | a :: s' =>
      if decide (a = CR) then
        LF :: match s' with
              | b :: s'' => if decide (b = LF) then translate_newlines s'' else translate_newlines s'
              | [] => []
              end
      else a :: translate_newlines s'
  end.

Fixpoint split_lines (s : str) : list str :=
  match s with
  | [] => []
  | a :: s' =>
      if decide (a = LF) then [LF] :: split_lines s'
      else match split_lines s' with
           | [] => [[a]]
           | l :: ls => (a :: l) :: ls
           end
  end.

Definition file_lines (content : str) : list str := split_lines (translate_newlines content).

(** The common head of the two config readers in [main.py]: skip blank,
    comment and [=]-free lines, then [key, value = [x.strip() for x in
    line.split("=", 1)]] (the second case is unreachable: the line holds
    a [=]). *)
Definition config_entry (raw : str) : option (str * str) :=
  let line := py_strip raw in
  if bool_decide (line = []) || py_startswith (lit "#") line || negb (py_contains (ch "=") line)
  then None
  else match map py_strip (py_split1 (ch "=") line) with
       | [key; value] => Some (key, value)
       | _ => None
       end.

(** ** [GameConfig] *)

Record GameConfig := mkConfig {
  cfg_size : Z;
  cfg_mode : str;
  cfg_a_strategy : option str;
  cfg_b_strategy : option str;
  cfg_seed : option Z;
  cfg_preset_board : option (list Z);
  cfg_start_player : str
}.

(** [GameConfig.__init__] *)
Definition GameConfig_init (size : Z) (mode : str) (a_strategy b_strategy : option str)
    (seed : option Z) (preset_board : option (list Z)) (start_player : str) : GameConfig :=
  let sp := py_upper (if bool_decide (start_player = []) then lit "A" else start_player) in
  mkConfig size mode a_strategy b_strategy seed preset_board
    (if bool_decide (sp = lit "A") || bool_decide (sp = lit "B") then sp else lit "A").

(** ** [main.load_config] *)

(** The local variables of [load_config] while it reads the file. *)
Record LoadVars := mkLoadVars {
  lv_size : option Z;
  lv_mode : option str;
  lv_a_strategy : option str;
  lv_b_strategy : option str;
  lv_seed : option Z;
  lv_preset_board : option (list Z);
  lv_start_player : str;
  lv_board_source : option str
}.

Definition load_init : LoadVars := mkLoadVars None None None None None None (lit "A") None.

(** The [if/elif] chain on [key_up]; [None] is the [ValueError] of
    [int] or [_parse_int_list]. *)
Definition load_kv (v : LoadVars) (key_up value : str) : option LoadVars :=
  let 'mkLoadVars size mode a b seed preset start source := v in
  if bool_decide (key_up = lit "SIZE") then
    n ← py_int value; Some (mkLoadVars (Some n) mode a b seed preset start source)
  else if bool_decide (key_up = lit "MODE") then
    Some (mkLoadVars size (Some value) a b seed preset start source)
  else if bool_decide (key_up = lit "A_STRATEGY") then
    Some (mkLoadVars size mode (Some value) b seed preset start source)
  else if bool_decide (key_up = lit "B_STRATEGY") then
    Some (mkLoadVars size mode a (Some value) seed preset start source)
  else if bool_decide (key_up = lit "SEED") then
    n ← py_int value; Some (mkLoadVars size mode a b (Some n) preset start source)
  else if bool_decide (key_up = lit "BOARD") then
    l ← _parse_int_list value; Some (mkLoadVars size mode a b seed (Some l) start source)
  else if bool_decide (key_up = lit "START_PLAYER") then
    Some (mkLoadVars size mode a b seed preset
            (py_upper (py_strip (if bool_decide (value = []) then lit "A" else value))) source)
  else if bool_decide (key_up = lit "BOARD_SOURCE") then
    Some (mkLoadVars size mode a b seed preset start (Some (py_upper (py_strip value))))
  else Some v.

Fixpoint load_lines (v : LoadVars) (lines : list str) : option LoadVars :=
  match lines with
  | [] => Some v
  | raw :: rest =>
      match config_entry raw with
      | None => load_lines v rest
      | Some (key, value) => v' ← load_kv v (py_upper key) value; load_lines v' rest
      end
  end.

(** [load_config(path)] for an existing file of text [content];
    [None] is a raised [ValueError]. *)
Definition load_config (content : str) : option GameConfig :=
  v ← load_lines load_init (file_lines content);
  match lv_size v with
  | None => None
  | Some size =>
      let mode := match lv_mode v with Some m => m | None => lit "H_VS_C" end in
      let board_source :=
        match lv_board_source v with
        | Some s => if bool_decide (s = lit "RANDOM") || bool_decide (s = lit "MANUAL") then s
                    else match lv_preset_board v with Some _ => lit "MANUAL" | None => lit "RANDOM" end
        | None => match lv_preset_board v with Some _ => lit "MANUAL" | None => lit "RANDOM" end
        end in
      let '(seed_to_use, preset_to_use) :=
        if bool_decide (board_source = lit "MANUAL") then (None, lv_preset_board v)
        else (lv_seed v, None) in
      Some (GameConfig_init size mode (lv_a_strategy v) (lv_b_strategy v) seed_to_use preset_to_use
              (if bool_decide (lv_start_player v = []) then lit "A" else lv_start_player v))
  end.

(** ** [main.save_config] *)

(** The [lines] of [save_config(path, config, board_source=...,
    seed_raw=..., preset_board_raw=...)]. *)
Definition save_config_lines (config : GameConfig) (board_source : str)
    (seed_raw : option Z) (preset_board_raw : option (list Z)) : list str :=
  [lit "# Row-Column Game configuration";
   lit "# SIZE must be provided. MODE can be H_VS_H, H_VS_C, or C_VS_C";
   lit "# A_STRATEGY/B_STRATEGY are names from strategies.py when the player is a computer";
   [];
   lit "SIZE=" ++ py_str (cfg_size config);
   lit "MODE=" ++ cfg_mode config;
   lit "START_PLAYER=" ++ cfg_start_player config;
   lit "BOARD_SOURCE=" ++ board_source]
  ++ (match cfg_a_strategy config with Some ((_ :: _) as s) => [lit "A_STRATEGY=" ++ s] | _ => [] end)
  ++ (match cfg_b_strategy config with Some ((_ :: _) as s) => [lit "B_STRATEGY=" ++ s] | _ => [] end)
  ++ (match seed_raw with Some s => [lit "SEED=" ++ py_str s] | None => [] end)
  ++ (match preset_board_raw with
      | Some ((_ :: _) as l) => [lit "BOARD=" ++ py_join (lit ",") (map py_str l)]
      | _ => []
      end).

(** The text [save_config] writes: [f.write("\n".join(lines) + "\n")]. *)
Definition save_config_text (config : GameConfig) (board_source : str)
    (seed_raw : option Z) (preset_board_raw : option (list Z)) : str :=
  py_join [LF] (save_config_lines config board_source seed_raw preset_board_raw) ++ [LF].

(** The raw preset values [main] re-reads from the file before the
    configuration menu ([state]); a value [int] rejects reads as [None]. *)
Record PresetState := mkPresetState {
  st_board_source : str;
  st_seed_raw : option Z;
  st_preset_board_raw : option (list Z)
}.

Definition state_init : PresetState := mkPresetState (lit "RANDOM") None None.

Definition state_kv (st : PresetState) (k value : str) : PresetState :=
  let 'mkPresetState src seed preset := st in
  if bool_decide (k = lit "BOARD_SOURCE") then mkPresetState (py_upper (py_strip value)) seed preset
  else if bool_decide (k = lit "SEED") then mkPresetState src (py_int (py_strip value)) preset
  else if bool_decide (k = lit "BOARD") then mkPresetState src seed (_parse_int_list value)
  else st.

Fixpoint state_lines (st : PresetState) (lines : list str) : PresetState :=
  match lines with
  | [] => st
  | raw :: rest =>
      match config_entry raw with
      | None => state_lines st rest
      | Some (key, value) => state_lines (state_kv st (py_upper key) value) rest
      end
  end.

Definition read_state (content : str) : PresetState := state_lines state_init (file_lines content).

(** ** [strategies.get_strategy] and the strategy submenu *)

Definition strategy_name (s : Strategy) : str :=
  match s with
  | Greedy => lit "Greedy"
  | MaximizeFutureMin => lit "MaximizeFutureMin"
  | MinimizeOpponentOptions => lit "MinimizeOpponentOptions"
  | PreserveHighValues => lit "PreserveHighValues"
  end.

(** [STRATEGY_REGISTRY], keyed by name. *)
Definition STRATEGY_REGISTRY : list (str * Strategy) :=
  [(lit "Greedy", Greedy);
   (lit "MaximizeFutureMin", MaximizeFutureMin);
   (lit "MinimizeOpponentOptions", MinimizeOpponentOptions);
   (lit "PreserveHighValues", PreserveHighValues)].

Fixpoint registry_lookup (name : str) (reg : list (str * Strategy)) : option Strategy :=
  match reg with
  | [] => None
  | (k, s) :: reg' => if bool_decide (k = name) then Some s else registry_lookup name reg'
  end.

Definition get_strategy (name : str) : Res Strategy :=
  match registry_lookup name STRATEGY_REGISTRY with
  | Some s => Ok s
  | None => Exc ValueError
  end.

(** [s.lower()] *)
Definition py_lower (s : str) : str :=
  map (fun a => if ((65 <=? ord a) && (ord a <=? 90))%nat then Ascii.ascii_of_nat (ord a + 32) else a) s.

(** What [guarded_input] makes of a typed line: [Menu] raises
    [KeyboardInterrupt], [Back] raises [BackCommand], [Exit] ends the
    program; anything else is returned as typed. *)
Inductive Guarded := GMenu | GBack | GExit | GText (s : str).

Definition guarded_input (s : str) : Guarded :=
  let t := py_lower (py_strip s) in
  if bool_decide (t = lit "menu") then GMenu
  else if bool_decide (t = lit "back") then GBack
  else if bool_decide (t = lit "exit") then GExit
  else GText s.

(** The outcome of one answer to [_strategy_submenu_generic]: the value
    passed to [set_attr], a return without change ([Back]), the
    [KeyboardInterrupt] of [Menu], the exit of [Exit], or the message for
    an invalid choice (after which the menu is shown again). *)
Inductive SubmenuStep := SetAttr (v : option str) | Unchanged | ToMainMenu | ExitProgram | Invalid.

Definition STRATS : list str :=
  [lit "Greedy"; lit "MaximizeFutureMin"; lit "MinimizeOpponentOptions"; lit "PreserveHighValues"].

Definition strategy_submenu_step (typed : str) : SubmenuStep :=
  match guarded_input typed with
  | GMenu => ToMainMenu
  | GBack => Unchanged
  | GExit => ExitProgram
  | GText s =>
      let raw := py_strip s in
      let raw_u := py_upper raw in
      if bool_decide (raw_u ∈ [lit "0"; lit "1"; lit "2"; lit "3"; lit "4"]) then
        match py_int raw_u with
        | Some 0 => SetAttr None
        | Some idx => match py_nth STRATS (idx - 1) with Some n => SetAttr (Some n) | None => Invalid end
        | None => Invalid
        end
      else if bool_decide (raw_u ∈ [lit "HUMAN"; []]) then SetAttr None
      else if bool_decide (raw ∈ STRATS) then SetAttr (Some raw)
      else Invalid
  end.

(** ** Option 7 of [show_config_menu] and the controllers of [start_game] *)

(** The mode/strategy validation before saving: [true] when the
    configuration is saved. *)
Definition save_validation (mode : str) (a_strategy b_strategy : option str) : bool :=
  let m := py_upper mode in
  let a_is_human := match a_strategy with None => true | Some _ => false end in
  let b_is_human := match b_strategy with None => true | Some _ => false end in
  if bool_decide (m = lit "H_VS_H") then a_is_human && b_is_human
  else if bool_decide (m = lit "H_VS_C") then
    negb ((a_is_human && b_is_human) || (negb a_is_human && negb b_is_human))
  else if bool_decide (m = lit "C_VS_C") then negb (a_is_human || b_is_human)
  else false.

(** [controller_for(player)] of [start_game] on the configured names. *)
Definition controller_for_config (mode : str) (a_strategy b_strategy : option str)
    (player : Player) : Res Controller :=
  if bool_decide (mode = lit "H_VS_H") then Ok Human
  else if bool_decide (mode = lit "H_VS_C") then
    match player with
    | PA => Ok Human
    | PB =>
        match b_strategy with
        | Some ((_ :: _) as name) =>
            match get_strategy name with Ok s => Ok (Computer s) | Exc e => Exc e end
        | _ => Exc ValueError
        end
    end
  else if bool_decide (mode = lit "C_VS_C") then
    match a_strategy, b_strategy with
    | Some ((_ :: _) as na), Some ((_ :: _) as nb) =>
        match get_strategy (match player with PA => na | PB => nb end) with
        | Ok s => Ok (Computer s)
        | Exc e => Exc e
        end
    | _, _ => Exc ValueError
    end
  else Exc ValueError.

(** The mode check and the two [controller_for] calls of [start_game]. *)
Definition start_game_controllers (config_mode : str) (a_strategy b_strategy : option str)
    : Res (Controller * Controller) :=
  let mode := py_upper config_mode in
  if negb (bool_decide (mode ∈ [lit "H_VS_H"; lit "H_VS_C"; lit "C_VS_C"])) then Exc ValueError
  else match controller_for_config mode a_strategy b_strategy PA with
       | Exc e => Exc e
       | Ok ctrl_A =>
           match controller_for_config mode a_strategy b_strategy PB with
           | Exc e => Exc e
           | Ok ctrl_B => Ok (ctrl_A, ctrl_B)
           end
       end.

(** ** [BoardManager.print_board] *)

(** The lines [print_board] prints: a removed cell is blank, except the
    latest removed one, shown as [X]. *)
Definition print_board : M (list str) :=
  let* b := get_board in
  mapM (fun r =>
    let* row_str := mapM (fun c =>
      let* val := get_cell r c in
      retM (match val with
            | None => if bool_decide (last_removed_pos b = Some (r, c)) then lit "X" else lit " "
            | Some v => py_str v
            end)) (range (size b)) in
    retM (py_join (lit " ") row_str)) (range (size b)).

Definition count_char (a : Ascii.ascii) (s : str) : nat :=
  length (List.filter (fun x => bool_decide (x = a)) s).

(** ** [main.submenu_board_size] *)

(** The outcome of one answer to the board size submenu: the new size and
    preset state, a return without change (also after a size below 2),
    the [KeyboardInterrupt] of [Menu], the exit of [Exit], or the message
    for a non-integer (after which the menu is shown again). *)
Inductive SizeStep := SizeSet (n : Z) (st : PresetState) | SizeKept | SizeToMainMenu | SizeExit | SizeInvalid.

Definition submenu_board_size_step (typed : str) (state : PresetState) : SizeStep :=
  match guarded_input typed with
  | GMenu => SizeToMainMenu
  | GBack => SizeKept
  | GExit => SizeExit
  | GText raw =>
      match py_int (py_strip raw) with
      | None => SizeInvalid
      | Some new_size =>
          if new_size <? 2 then SizeKept
          else match st_preset_board_raw state with
               | Some ((_ :: _) as pb) =>
                   if negb (Z.of_nat (length pb) =? new_size * new_size)
                   then SizeSet new_size (mkPresetState (lit "RANDOM") (st_seed_raw state) None)
                   else SizeSet new_size state
               | _ => SizeSet new_size state
               end
      end
  end.

Definition nonspace (a : Ascii.ascii) : Prop := py_isspace a = false.

Definition digit_like (a : Ascii.ascii) : Prop := is_digit a = true \/ a = ch "-".

Definition spaces (w : str) : Prop := Forall (fun a => py_isspace a = true) w.

(** A key written by [save_config]: non-empty, not a comment, without
    spaces or [=]. *)
Definition key_ok (k : str) : bool :=
  match k with [] => false | a :: _ => negb (bool_decide (a = ch "#")) end &&
  forallb (fun a => negb (py_isspace a) && negb (bool_decide (a = ch "="))) k.

Definition text_field (s : str) : Prop := ascii_text s /\ py_strip s = s /\ (LF ∉ s) /\ (CR ∉ s).

Definition opt_text_field (o : option str) : Prop :=
  match o with Some s => text_field s | None => True end.

Definition nonempty_opt {A} (o : option (list A)) : option (list A) :=
  match o with Some ((_ :: _) as l) => Some l | _ => None end.

(** *** Start player *)

Definition upper_char (a : Ascii.ascii) : Ascii.ascii :=
  if ((97 <=? ord a) && (ord a <=? 122))%nat then Ascii.ascii_of_nat (ord a - 32) else a.

(** *** Saving versus starting *)

Definition registered (o : option str) : Prop :=
  forall n, o = Some n -> exists s, get_strategy n = Ok s.

Definition render (b : Board) (r c : Z) : str :=
  match cell b r c with
  | None => if bool_decide (last_removed_pos b = Some (r, c)) then lit "X" else lit " "
  | Some v => py_str v
  end.

Definition marked (b : Board) (p : Position) : nat :=
  if bool_decide (cell b p.1 p.2 = None /\ last_removed_pos b = Some p) then 1 else 0.

(** A configuration used to run the save and load functions at concrete inputs. *)
Definition example_config : GameConfig :=
  mkConfig 2 (lit "C_VS_C") (Some (lit "Greedy")) (Some (lit "PreserveHighValues")) (Some 7) None (lit "B").

(** ** Basic facts *)

Lemma range_In n z : In z (range n) <-> 0 <= z < n.
Proof.
  unfold range. rewrite in_map_iff. split.
  - intros (k & <- & Hk). apply in_seq in Hk. lia.
  - intros H. exists (Z.to_nat z). split; [lia|]. apply in_seq. lia.
Qed.

Lemma in_bounds_iff b r c : in_bounds b (r, c) = true <-> 0 <= r < size b /\ 0 <= c < size b.
Proof.
  unfold in_bounds. rewrite !andb_true_iff, !Z.leb_le, !Z.ltb_lt. tauto.
Qed.

Lemma py_idx_in len i : 0 <= i < Z.of_nat len -> py_idx len i = Some (Z.to_nat i).
Proof.
  intros H. unfold py_idx.
  destruct (0 <=? i) eqn:E1, (i <? Z.of_nat len) eqn:E2; simpl; try reflexivity.
  - apply Z.ltb_ge in E2. lia.
  - apply Z.leb_gt in E1. lia.
  - apply Z.leb_gt in E1. lia.
Qed.

Lemma py_nth_in {A} (l : list A) i : 0 <= i < Z.of_nat (length l) -> py_nth l i = l !! Z.to_nat i.
Proof. intros H. unfold py_nth. rewrite py_idx_in by exact H. reflexivity. Qed.

Lemma wf_row b r : wf b -> 0 <= r < size b ->
  exists row, grid b !! Z.to_nat r = Some row /\ length row = Z.to_nat (size b).
Proof.
  intros [Hlen Hrows] Hr.
  destruct (lookup_lt_is_Some_2 (grid b) (Z.to_nat r)) as [row Hrow]; [lia|].
  exists row. split; [exact Hrow|]. exact (Forall_lookup_1 _ _ _ _ Hrows Hrow).
Qed.

Lemma get_cell_ok b r c : wf b -> in_bounds b (r, c) = true ->
  get_cell r c b = (Ok (cell b r c), b).
Proof.
  intros Hwf Hin. apply in_bounds_iff in Hin.
  destruct (wf_row b r Hwf ltac:(lia)) as (row & Hrow & Hrl).
  destruct Hwf as [Hlen _].
  unfold get_cell, cell. rewrite (py_nth_in (grid b)) by lia. rewrite Hrow. simpl.
  rewrite (py_nth_in row) by lia.
  destruct (lookup_lt_is_Some_2 row (Z.to_nat c)) as [v Hv]; [lia|]. rewrite Hv. reflexivity.
Qed.

Lemma cell_not_none_ok b p : wf b -> in_bounds b p = true ->
  cell_not_none p b = (Ok (present b p), b).
Proof.
  destruct p as [r c]. intros Hwf Hin. unfold cell_not_none, bindM.
  rewrite get_cell_ok by assumption. reflexivity.
Qed.

Lemma for_append_ok ps keep f out b :
  (forall p, In p ps -> keep p b = (Ok (f p), b)) ->
  for_append ps keep out b = (Ok (out ++ List.filter f ps), b).
Proof.
  revert out. induction ps as [|p ps IH]; intros out Hk; simpl.
  - rewrite app_nil_r. reflexivity.
  - unfold bindM. rewrite Hk by (left; reflexivity).
    rewrite IH by (intros q Hq; apply Hk; right; exact Hq).
    destruct (f p); simpl; [rewrite <- app_assoc; reflexivity | reflexivity].
Qed.

Lemma get_allowed_ok b p : wf b -> in_bounds b p = true ->
  get_allowed_positions p b = (Ok (allowed_spec b p), b).
Proof.
  destruct p as [r0 c0]. intros Hwf Hin. apply in_bounds_iff in Hin.
  unfold get_allowed_positions, bindM, get_board.
  rewrite (for_append_ok _ _ (present b)).
  2:{ intros q Hq. apply in_map_iff in Hq as (c & <- & Hc). apply range_In in Hc.
      apply cell_not_none_ok; [exact Hwf|]. apply in_bounds_iff. simpl. lia. }
  rewrite (for_append_ok _ _ (fun p => bool_decide (p.1 <> r0) && present b p)).
  2:{ intros q Hq. apply in_map_iff in Hq as (r & <- & Hr). apply range_In in Hr.
      cbn [fst]. destruct (bool_decide (r <> r0)); [|reflexivity].
      apply cell_not_none_ok; [exact Hwf|]. apply in_bounds_iff. lia. }
  reflexivity.
Qed.

Lemma cells_In n p : In p (cells n) <-> 0 <= p.1 < n /\ 0 <= p.2 < n.
Proof.
  destruct p as [r c]. unfold cells. rewrite in_flat_map. split.
  - intros (r' & Hr' & Hp). apply in_map_iff in Hp as (c' & [= <- <-] & Hc').
    apply range_In in Hr', Hc'. simpl. lia.
  - intros [Hr Hc]. exists r. split; [apply range_In; exact Hr|].
    apply in_map_iff. exists c. split; [reflexivity|]. apply range_In. exact Hc.
Qed.

Lemma get_all_ok b : wf b ->
  get_all_available_positions b = (Ok (List.filter (present b) (cells (size b))), b).
Proof.
  intros Hwf. unfold get_all_available_positions, bindM, get_board.
  rewrite (for_append_ok _ _ (present b)); [reflexivity|].
  intros p Hp. apply cells_In in Hp. apply cell_not_none_ok; [exact Hwf|].
  destruct p as [r c]. apply in_bounds_iff. exact Hp.
Qed.

Lemma legal_set_ok b lp : wf b -> (forall p, lp = Some p -> in_bounds b p = true) ->
  legal_set lp b = (Ok (legal_spec b lp), b).
Proof.
  intros Hwf Hlp. destruct lp as [p|]; simpl.
  - apply get_allowed_ok; auto.
  - apply get_all_ok; auto.
Qed.

Lemma range_NoDup n : List.NoDup (range n).
Proof.
  unfold range. apply NoDup_map_NoDup_ForallPairs; [|apply seq_NoDup].
  intros x y _ _ H. lia.
Qed.

Lemma present_true b p : present b p = true <-> cell b p.1 p.2 <> None.
Proof. unfold present. apply bool_decide_eq_true. Qed.

Lemma allowed_spec_In b r0 c0 q : 0 <= r0 < size b -> 0 <= c0 < size b ->
  In q (allowed_spec b (r0, c0)) <-> available b q /\ (q.1 = r0 \/ q.2 = c0).
Proof.
  intros Hr0 Hc0. destruct q as [r c]. unfold allowed_spec, available.
  rewrite in_app_iff, !filter_In, !in_map_iff, in_bounds_iff, present_true.
  cbn [fst snd]. split.
  - intros [[(c' & [= <- <-] & Hc') Hp] | [(r' & [= <- <-] & Hr') Hp]].
    + apply range_In in Hc'. split; [split; [lia|exact Hp]|left; reflexivity].
    + apply andb_true_iff in Hp as [_ Hp]. apply present_true in Hp.
      apply range_In in Hr'. split; [split; [lia|exact Hp]|right; reflexivity].
  - intros [[Hb Hp] [-> | ->]].
    + left. split; [|exact Hp]. exists c. split; [reflexivity|]. apply range_In. lia.
    + destruct (decide (r = r0)) as [-> | Hne].
      * left. split; [|exact Hp]. exists c0. split; [reflexivity|]. apply range_In. lia.
      * right. split.
        -- exists r. split; [reflexivity|]. apply range_In. lia.
        -- apply andb_true_iff. split; [apply bool_decide_eq_true; exact Hne|].
           apply present_true. exact Hp.
Qed.

Lemma allowed_spec_NoDup b r0 c0 : List.NoDup (allowed_spec b (r0, c0)).
Proof.
  unfold allowed_spec. apply List.NoDup_app.
  - apply List.NoDup_filter, NoDup_map_NoDup_ForallPairs; [|apply range_NoDup].
    intros x y _ _ H. congruence.
  - apply List.NoDup_filter, NoDup_map_NoDup_ForallPairs; [|apply range_NoDup].
    intros x y _ _ H. congruence.
  - intros p Hp Hp'. apply filter_In in Hp as [Hp _], Hp' as [Hp' Hf].
    apply in_map_iff in Hp as (c & <- & _). apply in_map_iff in Hp' as (r & Heq & _).
    apply andb_true_iff in Hf as [Hf _]. apply bool_decide_eq_true in Hf.
    cbn [fst] in Hf. apply Hf. reflexivity.
Qed.

Lemma cells_filter_In b q : wf b ->
  In q (List.filter (present b) (cells (size b))) <-> available b q.
Proof.
  intros _. destruct q as [r c]. unfold available.
  rewrite filter_In, cells_In, in_bounds_iff, present_true. tauto.
Qed.

Lemma legal_spec_In b lp q : wf b -> (forall p, lp = Some p -> in_bounds b p = true) ->
  In q (legal_spec b lp) <->
    available b q /\ match lp with None => True | Some (r0, c0) => q.1 = r0 \/ q.2 = c0 end.
Proof.
  intros Hwf Hlp. destruct lp as [[r0 c0]|].
  - specialize (Hlp _ eq_refl). apply in_bounds_iff in Hlp as [Hr Hc].
    apply allowed_spec_In; assumption.
  - cbn [legal_spec]. rewrite cells_filter_In by exact Hwf. tauto.
Qed.

(** C1. With [lastPos] in bounds, [get_allowed_positions(lastPos)] returns,
    without touching the board, the present cells of [lastPos]'s row
    (ascending column) followed by the present cells of its column other
    than the intersection (ascending row): exactly the available positions
    sharing its row or column, each once.  With no previous move the legal
    set is [get_all_available_positions()]: the available positions in
    row-major order. *)
Theorem legal_set_spec (b : Board) (lp : option Position) :
  wf b -> (forall p, lp = Some p -> in_bounds b p = true) ->
  legal_set lp b = (Ok (legal_spec b lp), b) /\
  (forall q, In q (legal_spec b lp) <->
     available b q /\
     match lp with None => True | Some (r0, c0) => q.1 = r0 \/ q.2 = c0 end) /\
  match lp with Some _ => List.NoDup (legal_spec b lp) | None => True end.
Proof.
  intros Hwf Hlp. split; [apply legal_set_ok; assumption|].
  split; [intros q; apply legal_spec_In; assumption|].
  destruct lp as [[r0 c0]|]; [apply allowed_spec_NoDup|exact I].
Qed.

Lemma set_cell_ok b r c v : wf b -> in_bounds b (r, c) = true ->
  set_cell r c v b = (Ok tt, upd_cell b r c v).
Proof.
  intros Hwf Hin. apply in_bounds_iff in Hin.
  destruct (wf_row b r Hwf ltac:(lia)) as (row & Hrow & Hrl).
  destruct Hwf as [Hlen _].
  unfold set_cell, upd_cell. rewrite py_idx_in by lia. rewrite Hrow.
  rewrite py_idx_in by lia. reflexivity.
Qed.

Lemma wf_upd b r c v : wf b -> in_bounds b (r, c) = true -> wf (upd_cell b r c v).
Proof.
  intros Hwf Hin. apply in_bounds_iff in Hin.
  destruct (wf_row b r Hwf ltac:(lia)) as (row & Hrow & Hrl).
  destruct Hwf as [Hlen Hrows]. unfold upd_cell, with_grid, wf. cbn [grid size].
  rewrite Hrow. cbn [default]. split.
  - rewrite length_insert. exact Hlen.
  - apply Forall_insert; [exact Hrows|]. rewrite length_insert. exact Hrl.
Qed.

Lemma cell_upd b r c v r' c' : wf b ->
  in_bounds b (r, c) = true -> in_bounds b (r', c') = true ->
  cell (upd_cell b r c v) r' c' = if decide ((r', c') = (r, c)) then v else cell b r' c'.
Proof.
  intros Hwf Hin Hin'. apply in_bounds_iff in Hin, Hin'.
  destruct (wf_row b r Hwf ltac:(lia)) as (row & Hrow & Hrl).
  destruct Hwf as [Hlen _].
  unfold cell, upd_cell, with_grid. cbn [grid]. rewrite Hrow. cbn [default].
  destruct (decide (r' = r)) as [-> | Hr].
  - rewrite list_lookup_insert_eq by lia. rewrite Hrow. cbn.
    destruct (decide (c' = c)) as [-> | Hc].
    + rewrite list_lookup_insert_eq by lia. rewrite decide_True by reflexivity. reflexivity.
    + rewrite list_lookup_insert_ne by lia. rewrite decide_False by congruence. reflexivity.
  - rewrite list_lookup_insert_ne by lia. rewrite decide_False by congruence. reflexivity.
Qed.

Lemma upd_restore b r c v : wf b -> in_bounds b (r, c) = true ->
  upd_cell (upd_cell b r c v) r c (cell b r c) = b.
Proof.
  intros Hwf Hin. apply in_bounds_iff in Hin.
  destruct (wf_row b r Hwf ltac:(lia)) as (row & Hrow & Hrl).
  destruct Hwf as [Hlen _].
  destruct (lookup_lt_is_Some_2 row (Z.to_nat c)) as [x Hx]; [lia|].
  unfold upd_cell, with_grid, cell. cbn [grid size last_removed_pos].
  rewrite Hrow. rewrite list_lookup_insert_eq by lia.
  change (Some row ≫= (fun row0 => row0 !! Z.to_nat c)) with (row !! Z.to_nat c).
  rewrite Hx. cbv [default from_option id].
  rewrite list_insert_insert_eq, list_insert_insert_eq.
  rewrite (list_insert_id row) by exact Hx.
  rewrite (list_insert_id (grid b)) by exact Hrow.
  destruct b; reflexivity.
Qed.

Lemma size_upd b r c v : size (upd_cell b r c v) = size b.
Proof. reflexivity. Qed.

Lemma is_available_ok b p : wf b ->
  is_available p b = (Ok (in_bounds b p && present b p), b).
Proof.
  destruct p as [r c]. intros Hwf. unfold is_available.
  destruct (in_bounds b (r, c)) eqn:Hin; [|reflexivity].
  unfold bindM. rewrite get_cell_ok by assumption. reflexivity.
Qed.

Lemma available_bool b p : in_bounds b p && present b p = true <-> available b p.
Proof. unfold available. rewrite andb_true_iff, present_true. tauto. Qed.

Lemma remove_and_get_ok b pos v : wf b -> in_bounds b pos = true ->
  cell b pos.1 pos.2 = Some v ->
  remove_and_get pos b = (Ok v, removed_board b pos).
Proof.
  destruct pos as [r c]. intros Hwf Hin Hv.
  assert (Hp : present b (r, c) = true) by (apply present_true; congruence).
  unfold remove_and_get, bindM at 1. rewrite is_available_ok by exact Hwf.
  rewrite Hin, Hp. cbn [negb andb]. cbn [fst snd] in Hv.
  unfold bindM. rewrite get_cell_ok by assumption. rewrite Hv.
  rewrite set_cell_ok by assumption. reflexivity.
Qed.

Lemma remove_and_get_fail b pos : wf b -> ~ available b pos ->
  remove_and_get pos b = (Exc ValueError, b).
Proof.
  intros Hwf Hna. unfold remove_and_get, bindM at 1. rewrite is_available_ok by exact Hwf.
  destruct (in_bounds b pos && present b pos) eqn:E.
  - exfalso. apply Hna, available_bool, E.
  - reflexivity.
Qed.

(** C3. [remove_and_get(pos)] raises (leaving the board as it was) exactly
    when [pos] is out of bounds or already removed; on an available
    position it returns the cell's prior value, empties that cell, records
    [pos] as the latest removal and leaves every other cell as it was. *)
Theorem remove_and_get_spec (b : Board) (pos : Position) : wf b ->
  (~ available b pos -> remove_and_get pos b = (Exc ValueError, b)) /\
  (available b pos ->
     exists v b', cell b pos.1 pos.2 = Some v /\
       remove_and_get pos b = (Ok v, b') /\
       wf b' /\ size b' = size b /\
       last_removed_pos b' = Some pos /\
       ~ available b' pos /\
       (forall q, in_bounds b q = true -> q <> pos -> cell b' q.1 q.2 = cell b q.1 q.2)).
Proof.
  intros Hwf. split; [apply remove_and_get_fail; exact Hwf|].
  intros [Hin Hp]. destruct (cell b pos.1 pos.2) as [v|] eqn:Hv; [|congruence].
  exists v, (removed_board b pos). destruct pos as [r c].
  split; [reflexivity|]. split; [apply remove_and_get_ok; assumption|].
  split; [apply wf_upd; assumption|]. split; [reflexivity|]. split; [reflexivity|].
  split.
  - intros [_ Hp']. apply Hp'. unfold removed_board, with_last. cbn [fst snd].
    change (cell (upd_cell b r c None) r c = None).
    rewrite cell_upd by assumption. rewrite decide_True by reflexivity. reflexivity.
  - intros [r' c'] Hin' Hne. unfold removed_board, with_last. cbn [fst snd].
    change (cell (upd_cell b r c None) r' c' = cell b r' c').
    rewrite cell_upd by assumption. rewrite decide_False by exact Hne. reflexivity.
Qed.

(** ** Python tuple comparison *)

Lemma tuple_cmp_refl a : tuple_cmp a a = Eq.
Proof. induction a as [|x a IH]; simpl; [reflexivity|]. rewrite Z.compare_refl. exact IH. Qed.

Lemma tuple_cmp_antisym a b : tuple_cmp b a = CompOpp (tuple_cmp a b).
Proof.
  revert b. induction a as [|x a IH]; intros [|y b]; simpl; try reflexivity.
  rewrite (Z.compare_antisym x y). destruct (Z.compare x y); simpl; auto.
Qed.

Lemma tuple_cmp_gt_ge a p y :
  tuple_cmp a p = Gt -> tuple_cmp y p <> Gt -> tuple_cmp a y = Gt.
Proof.
  revert p y. induction a as [|x a IH]; intros [|z p] [|w y] H1 H2; simpl in *;
    try discriminate; try reflexivity; try (exfalso; apply H2; reflexivity).
  destruct (Z.compare_spec x z) as [Exz|Exz|Exz];
    destruct (Z.compare_spec w z) as [Ewz|Ewz|Ewz];
    destruct (Z.compare_spec x w) as [Exw|Exw|Exw];
    try discriminate; try lia; try reflexivity; try (exfalso; apply H2; reflexivity).
  eauto.
Qed.

Lemma tuple_cmp_gt_not_gt a b : tuple_cmp a b = Gt -> tuple_cmp b a <> Gt.
Proof. intros H. rewrite tuple_cmp_antisym, H. discriminate. Qed.

(** ** [_best_by_key] selects the first maximal candidate *)

Section BestByKey.
Variable key_fn : Position -> M (list Z).
Variable key : Position -> list Z.
Variable b : Board.

Lemma best_loop_some ps prefix p i :
  (forall q, In q ps -> key_fn q b = (Ok (key q), b)) ->
  prefix !! i = Some p ->
  (forall j q, prefix !! j = Some q -> tuple_cmp (key q) (key p) <> Gt) ->
  (forall j q, (j < i)%nat -> prefix !! j = Some q -> tuple_cmp (key p) (key q) = Gt) ->
  exists p', best_loop key_fn true ps (Some p) (Some (key p)) b = (Ok (Some p'), b) /\
    first_argmax key (prefix ++ ps) p'.
Proof.
  revert prefix p i. induction ps as [|q ps IH]; intros prefix p i Hk Hi Hmax Hfirst.
  - exists p. split; [reflexivity|]. rewrite app_nil_r. exists i. auto.
  - simpl. unfold bindM. rewrite Hk by (left; reflexivity).
    replace (prefix ++ q :: ps) with ((prefix ++ [q]) ++ ps) by (rewrite <- app_assoc; reflexivity).
    assert (Hps : forall q', In q' ps -> key_fn q' b = (Ok (key q'), b))
      by (intros; apply Hk; right; assumption).
    assert (Hlt : (i < length prefix)%nat) by (apply lookup_lt_is_Some_1; eauto).
    destruct (bool_decide (tuple_cmp (key q) (key p) = Gt)) eqn:E.
    + apply bool_decide_eq_true in E.
      apply (IH (prefix ++ [q]) q (length prefix) Hps).
      * rewrite lookup_app_r by lia. rewrite Nat.sub_diag. reflexivity.
      * intros j q' Hj. destruct (decide (j < length prefix)%nat) as [Hl|Hl].
        -- rewrite lookup_app_l in Hj by exact Hl.
           apply tuple_cmp_gt_not_gt, (tuple_cmp_gt_ge _ (key p)); [exact E|]. eauto.
        -- rewrite lookup_app_r in Hj by lia.
           destruct (j - length prefix)%nat; [|simpl in Hj; rewrite lookup_nil in Hj; discriminate].
           injection Hj as <-. rewrite tuple_cmp_refl. discriminate.
      * intros j q' Hj Hq'. rewrite lookup_app_l in Hq' by exact Hj.
        apply (tuple_cmp_gt_ge _ (key p)); [exact E|]. eauto.
    + apply bool_decide_eq_false in E.
      apply (IH (prefix ++ [q]) p i Hps).
      * rewrite lookup_app_l by exact Hlt. exact Hi.
      * intros j q' Hj. destruct (decide (j < length prefix)%nat) as [Hl|Hl].
        -- rewrite lookup_app_l in Hj by exact Hl. eauto.
        -- rewrite lookup_app_r in Hj by lia.
           destruct (j - length prefix)%nat; [|simpl in Hj; rewrite lookup_nil in Hj; discriminate].
           injection Hj as <-. exact E.
      * intros j q' Hj Hq'. rewrite lookup_app_l in Hq' by lia. eauto.
Qed.

Lemma best_by_key_ok cands :
  cands <> [] ->
  (forall q, In q cands -> key_fn q b = (Ok (key q), b)) ->
  exists p, _best_by_key cands key_fn true b = (Ok (Some p), b) /\ first_argmax key cands p.
Proof.
  destruct cands as [|c cs]; intros Hne Hk; [congruence|].
  unfold _best_by_key. simpl. unfold bindM. rewrite Hk by (left; reflexivity).
  apply (best_loop_some cs [c] c 0).
  - intros; apply Hk; right; assumption.
  - reflexivity.
  - intros [|j] q Hj; [injection Hj as <-; rewrite tuple_cmp_refl; discriminate|].
    simpl in Hj. rewrite lookup_nil in Hj. discriminate.
  - intros j q Hj. lia.
Qed.
End BestByKey.

(** ** The metrics of the strategies read the board and restore it *)

Ltac run_step H := rewrite H; cbv beta iota zeta.

Lemma get_value_ok b p : wf b -> in_bounds b p = true ->
  get_value p b = (Ok (cell b p.1 p.2), b).
Proof. destruct p as [r c]. apply get_cell_ok. Qed.

Lemma in_bounds_upd b r c v p : in_bounds (upd_cell b r c v) p = in_bounds b p.
Proof. destruct p; reflexivity. Qed.

Lemma wf_sim b p : wf b -> in_bounds b p = true -> wf (sim_remove b p).
Proof. destruct p as [r c]. apply wf_upd. Qed.

Lemma opp_replies_in_bounds b p q : in_bounds b p = true ->
  In q (opp_replies b p) -> in_bounds (sim_remove b p) q = true.
Proof.
  destruct p as [r c]. intros Hin Hq. apply in_bounds_iff in Hin.
  unfold opp_replies in Hq. apply allowed_spec_In in Hq as [[Hq _] _]; exact Hq || (simpl; lia).
Qed.

Lemma mapM_ok {B} (f : Position -> M B) (g : Position -> B) l b :
  (forall x, In x l -> f x b = (Ok (g x), b)) -> mapM f l b = (Ok (map g l), b).
Proof.
  induction l as [|x l IH]; intros Hf; [reflexivity|].
  simpl. unfold bindM. rewrite Hf by (left; reflexivity).
  rewrite IH by (intros; apply Hf; right; assumption). reflexivity.
Qed.

Lemma list_min_cons a l : list_min (a :: l) = match l with [] => a | _ => Z.min a (list_min l) end.
Proof. destruct l; reflexivity. Qed.

Lemma py_min_list_min xs : py_min xs = list_min xs.
Proof.
  destruct xs as [|x xs]; [reflexivity|]. unfold py_min. revert x.
  induction xs as [|y ys IH]; intros x; [reflexivity|].
  cbn [fold_left]. rewrite IH. rewrite !list_min_cons. destruct ys; lia.
Qed.

Lemma future_min_metric_ok b p : wf b -> in_bounds b p = true ->
  future_min_metric p b = (Ok (future_min_key b p), b).
Proof.
  intros Hwf Hin. pose proof (wf_sim b p Hwf Hin) as Hwf'.
  pose proof (opp_replies_in_bounds b p) as Hopp.
  destruct p as [r c]. unfold future_min_metric, bindM, retM.
  run_step get_value_ok; [|assumption..]. run_step get_cell_ok; [|assumption..].
  run_step set_cell_ok; [|assumption..].
  run_step get_allowed_ok; [|exact Hwf'|rewrite in_bounds_upd; exact Hin].
  unfold future_min_key, opp_replies in *. unfold sim_remove in *. cbn [fst snd] in *.
  destruct (allowed_spec (upd_cell b r c None) (r, c)) as [|q qs] eqn:Eopp.
  - cbv beta iota. rewrite set_cell_ok by (exact Hwf' || (rewrite in_bounds_upd; exact Hin)).
    rewrite upd_restore by assumption. reflexivity.
  - rewrite (mapM_ok _ (value0 (upd_cell b r c None))).
    2:{ intros x Hx. unfold value0. specialize (Hopp x Hin Hx).
        unfold bindM. rewrite get_value_ok by assumption. reflexivity. }
    cbv beta iota.
    rewrite set_cell_ok by (exact Hwf' || (rewrite in_bounds_upd; exact Hin)).
    rewrite upd_restore by assumption. rewrite py_min_list_min. reflexivity.
Qed.

Lemma opponent_options_metric_ok b p : wf b -> in_bounds b p = true ->
  opponent_options_metric p b = (Ok [- Z.of_nat (length (opp_replies b p)); value0 b p], b).
Proof.
  intros Hwf Hin. pose proof (wf_sim b p Hwf Hin) as Hwf'.
  destruct p as [r c]. unfold opponent_options_metric, bindM, retM.
  run_step get_cell_ok; [|assumption..].
  run_step set_cell_ok; [|assumption..].
  run_step get_allowed_ok; [|exact Hwf'|rewrite in_bounds_upd; exact Hin].
  rewrite set_cell_ok by (exact Hwf' || (rewrite in_bounds_upd; exact Hin)).
  cbv beta iota. rewrite upd_restore by assumption.
  rewrite get_value_ok by assumption. reflexivity.
Qed.

Lemma count_global_max_ok g b ps a h :
  wf b -> (forall q, In q ps -> in_bounds b q = true) ->
  count_global_max g ps (a, h) b =
    (Ok ((if existsb (fun q => value0 b q =? g) ps then 1 else a),
         h + Z.of_nat (length (List.filter (fun q => value0 b q =? g) ps))), b).
Proof.
  intros Hwf. revert a h. induction ps as [|q ps IH]; intros a h Hps.
  - cbn [count_global_max existsb List.filter length Z.of_nat]. unfold retM. rewrite Z.add_0_r. reflexivity.
  - simpl. unfold bindM. rewrite get_value_ok by (auto; apply Hps; left; reflexivity).
    cbv beta iota. unfold value0 at 1 3.
    destruct (Z.eqb_spec (or0 (cell b q.1 q.2)) g) as [E|E].
    + rewrite bool_decide_eq_true_2 by exact E. cbn [fst snd].
      rewrite IH by (intros; apply Hps; right; assumption). simpl.
      rewrite Nat2Z.inj_succ, <- Z.add_1_l, Z.add_assoc. destruct (existsb _ ps); reflexivity.
    + rewrite bool_decide_eq_false_2 by exact E.
      rewrite IH by (intros; apply Hps; right; assumption). reflexivity.
Qed.

Lemma high_value_metric_ok g b p : wf b -> in_bounds b p = true ->
  high_value_metric g p b = (Ok (high_value_key g b p), b).
Proof.
  intros Hwf Hin. pose proof (wf_sim b p Hwf Hin) as Hwf'.
  pose proof (opp_replies_in_bounds b p) as Hopp.
  destruct p as [r c]. unfold high_value_metric, bindM, retM.
  run_step get_cell_ok; [|assumption..].
  run_step set_cell_ok; [|assumption..].
  run_step get_allowed_ok; [|exact Hwf'|rewrite in_bounds_upd; exact Hin].
  rewrite count_global_max_ok; [|exact Hwf'|intros q Hq; apply Hopp; assumption].
  cbv beta iota.
  rewrite set_cell_ok by (exact Hwf' || (rewrite in_bounds_upd; exact Hin)).
  cbv beta iota. rewrite upd_restore by assumption.
  rewrite get_value_ok by assumption. reflexivity.
Qed.

Lemma max_loop_ok b ps m : wf b -> (forall q, In q ps -> in_bounds b q = true) ->
  max_loop ps m b =
    (Ok (fold_left (fun m q => match cell b q.1 q.2 with Some v => Z.max m v | None => m end) ps m), b).
Proof.
  intros Hwf. revert m. induction ps as [|[r c] ps IH]; intros m Hps; [reflexivity|].
  simpl. unfold bindM. rewrite get_cell_ok by (auto; apply Hps; left; reflexivity).
  cbv beta iota. destruct (cell b r c) as [v|].
  - destruct (Z.gtb_spec v m); rewrite IH by (intros; apply Hps; right; assumption).
    + replace (Z.max m v) with v by lia. reflexivity.
    + replace (Z.max m v) with m by lia. reflexivity.
  - rewrite IH by (intros; apply Hps; right; assumption). reflexivity.
Qed.

Lemma max_remaining_value_ok b : wf b -> max_remaining_value b = (Ok (max_spec b), b).
Proof.
  intros Hwf. unfold max_remaining_value, bindM, get_board. cbv beta iota.
  apply max_loop_ok; [exact Hwf|].
  intros [r c] Hq. apply cells_In in Hq. apply in_bounds_iff. exact Hq.
Qed.

(** ** The strategies *)

Lemma legal_in_bounds b lp q : wf b -> (forall p, lp = Some p -> in_bounds b p = true) ->
  In q (legal_spec b lp) -> in_bounds b q = true.
Proof.
  intros Hwf Hlp Hq. destruct lp as [[r0 c0]|].
  - specialize (Hlp _ eq_refl). apply in_bounds_iff in Hlp.
    apply allowed_spec_In in Hq as [[Hq _] _]; tauto.
  - apply cells_filter_In in Hq as [Hq _]; assumption.
Qed.

Lemma allowed_or_raise_ok b lp : wf b -> (forall p, lp = Some p -> in_bounds b p = true) ->
  legal_spec b lp <> [] -> allowed_or_raise lp b = (Ok (legal_spec b lp), b).
Proof.
  intros Hwf Hlp Hne. unfold allowed_or_raise, bindM. rewrite legal_set_ok by assumption.
  cbv beta iota. destruct (legal_spec b lp); [congruence|reflexivity].
Qed.

Lemma strategy_ok s b lp : wf b -> (forall p, lp = Some p -> in_bounds b p = true) ->
  legal_spec b lp <> [] ->
  exists p, run_strategy s lp b = (Ok (Some p), b) /\
            first_argmax (strategy_key s b) (legal_spec b lp) p.
Proof.
  intros Hwf Hlp Hne. pose proof (legal_in_bounds b lp) as Hq.
  destruct s; cbn [run_strategy strategy_key];
    [unfold strategy_greedy_maximize | unfold strategy_maximize_future_min
    | unfold strategy_minimize_opponent_options | unfold strategy_high_value_preservation];
    unfold bindM at 1; rewrite allowed_or_raise_ok by assumption; cbv beta iota.
  - apply best_by_key_ok; [exact Hne|]. intros q Hin. unfold bindM.
    rewrite get_value_ok by auto. reflexivity.
  - apply best_by_key_ok; [exact Hne|]. intros q Hin. apply future_min_metric_ok; auto.
  - apply best_by_key_ok; [exact Hne|]. intros q Hin. apply opponent_options_metric_ok; auto.
  - unfold bindM. rewrite max_remaining_value_ok by exact Hwf. cbv beta iota.
    apply best_by_key_ok; [exact Hne|]. intros q Hin. apply high_value_metric_ok; auto.
Qed.

Lemma legal_set_nonempty b lp allowed b1 :
  wf b -> (forall p, lp = Some p -> in_bounds b p = true) ->
  legal_set lp b = (Ok allowed, b1) -> allowed <> [] ->
  allowed = legal_spec b lp /\ b1 = b /\ legal_spec b lp <> [].
Proof.
  intros Hwf Hlp Hls Hne. rewrite legal_set_ok in Hls by assumption.
  injection Hls as <- <-. auto.
Qed.

(** C2. Each of the four strategies, called on a board whose legal set is
    non-empty, returns a position and leaves the board exactly as it found
    it: the same grid cell by cell and the same latest-removed position. *)
Theorem strategy_restores_board (s : Strategy) (b : Board) (lp : option Position)
    (allowed : list Position) (b1 : Board) :
  wf b -> (forall p, lp = Some p -> in_bounds b p = true) ->
  legal_set lp b = (Ok allowed, b1) -> allowed <> [] ->
  exists p, run_strategy s lp b = (Ok (Some p), b).
Proof.
  intros Hwf Hlp Hls Hne.
  destruct (legal_set_nonempty b lp allowed b1 Hwf Hlp Hls Hne) as (_ & _ & Hne').
  destruct (strategy_ok s b lp Hwf Hlp Hne') as (p & Hrun & _). eauto.
Qed.

(** C4. MaximizeFutureMin returns, without changing the board, the first
    legal candidate whose key (own value minus the smallest value among the
    opponent's replies once the candidate is taken, 0 when there is none;
    then own value) is lexicographically maximal. *)
Theorem maximize_future_min_choice (b : Board) (lp : option Position)
    (allowed : list Position) (b1 : Board) :
  wf b -> (forall p, lp = Some p -> in_bounds b p = true) ->
  legal_set lp b = (Ok allowed, b1) -> allowed <> [] ->
  exists p, strategy_maximize_future_min lp b = (Ok (Some p), b) /\
            first_argmax (future_min_key b) allowed p.
Proof.
  intros Hwf Hlp Hls Hne.
  destruct (legal_set_nonempty b lp allowed b1 Hwf Hlp Hls Hne) as (-> & _ & Hne').
  exact (strategy_ok MaximizeFutureMin b lp Hwf Hlp Hne').
Qed.

(** C5. PreserveHighValues computes the global maximum once, on the board
    before any simulation, and returns, without changing the board, the
    first legal candidate maximising (-exposes, -hits, own value), where
    [hits] counts the opponent's replies holding that maximum once the
    candidate is taken and [exposes] is 1 iff there is one. *)
Theorem high_value_preservation_choice (b : Board) (lp : option Position)
    (allowed : list Position) (b1 : Board) :
  wf b -> (forall p, lp = Some p -> in_bounds b p = true) ->
  legal_set lp b = (Ok allowed, b1) -> allowed <> [] ->
  exists global_max p,
    max_remaining_value b = (Ok global_max, b) /\
    strategy_high_value_preservation lp b = (Ok (Some p), b) /\
    first_argmax (high_value_key global_max b) allowed p.
Proof.
  intros Hwf Hlp Hls Hne.
  destruct (legal_set_nonempty b lp allowed b1 Hwf Hlp Hls Hne) as (-> & _ & Hne').
  destruct (strategy_ok PreserveHighValues b lp Hwf Hlp Hne') as (p & Hrun & Harg).
  exists (max_spec b), p. split; [apply max_remaining_value_ok; exact Hwf|]. auto.
Qed.

Lemma max_spec_bound b : wf b ->
  0 <= max_spec b /\ (forall q, available b q -> value0 b q <= max_spec b) /\
  (max_spec b = 0 \/ exists q, available b q /\ value0 b q = max_spec b).
Proof.
  intros _. unfold max_spec.
  assert (H : forall ps m, 0 <= m ->
    let r := fold_left (fun m q => match cell b q.1 q.2 with Some v => Z.max m v | None => m end) ps m in
    m <= r /\ (forall q, In q ps -> cell b q.1 q.2 <> None -> value0 b q <= r) /\
    (r = m \/ exists q, In q ps /\ cell b q.1 q.2 <> None /\ value0 b q = r)).
  { induction ps as [|q ps IH]; intros m Hm; simpl.
    - split; [lia|]. split; [intros _ []|left; reflexivity].
    - unfold value0 in *. destruct (cell b q.1 q.2) as [v|] eqn:Hv.
      + destruct (IH (Z.max m v) ltac:(lia)) as (H1 & H2 & H3). split; [lia|]. split.
        * intros q' [<- | Hq'] Hn; [rewrite Hv; simpl; lia|]. apply H2; assumption.
        * destruct H3 as [H3 | (q' & Hq' & Hn & Hval)].
          -- destruct (Z.max_spec m v) as [[_ E]|[_ E]]; rewrite E in *.
             ++ right. exists q. rewrite Hv. split; [left; reflexivity|]. split; [congruence|].
                cbn [or0]. lia.
             ++ left. exact H3.
          -- right. exists q'. auto.
      + destruct (IH m Hm) as (H1 & H2 & H3). split; [lia|]. split.
        * intros q' [<- | Hq'] Hn; [congruence|]. apply H2; assumption.
        * destruct H3 as [H3 | (q' & Hq' & Hn & Hval)]; [left; exact H3|].
          right. exists q'. auto. }
  destruct (H (cells (size b)) 0 ltac:(lia)) as (H1 & H2 & H3). split; [exact H1|]. split.
  - intros q [Hin Hn]. apply H2; [|exact Hn]. apply cells_In.
    destruct q as [r c]. apply in_bounds_iff. exact Hin.
  - destruct H3 as [H3 | (q & Hq & Hn & Hval)]; [left; exact H3|]. right. exists q.
    split; [|exact Hval]. split; [|exact Hn]. apply cells_In in Hq.
    destruct q as [r c]. apply in_bounds_iff. exact Hq.
Qed.

Lemma tuple_cmp_single x y : tuple_cmp [x] [y] = Z.compare x y.
Proof. simpl. destruct (Z.compare x y); reflexivity. Qed.

(** C6. Greedy returns, without changing the board, the first legal
    candidate of maximal value; on the spec's example (size 3, preset
    [1..9], opening move (0,0)) the legal set is [(0,1); (0,2); (1,0);
    (2,0)] and Greedy picks (2,0), of value 7. *)
Theorem greedy_choice :
  (forall (b : Board) (lp : option Position) (allowed : list Position) (b1 : Board),
     wf b -> (forall p, lp = Some p -> in_bounds b p = true) ->
     legal_set lp b = (Ok allowed, b1) -> allowed <> [] ->
     exists p i, strategy_greedy_maximize lp b = (Ok (Some p), b) /\
       allowed !! i = Some p /\
       (forall j q, allowed !! j = Some q -> value0 b q <= value0 b p) /\
       (forall j q, (j < i)%nat -> allowed !! j = Some q -> value0 b q < value0 b p)) /\
  (forall (g : RandomGen) (entropy : Z),
     BoardManager_init g 3 None (Some example_preset) entropy = Ok example_board) /\
  remove_and_get (0, 0) example_board = (Ok 1, example_after_opening) /\
  legal_set (Some (0, 0)) example_after_opening =
    (Ok [(0, 1); (0, 2); (1, 0); (2, 0)], example_after_opening) /\
  strategy_greedy_maximize (Some (0, 0)) example_after_opening =
    (Ok (Some (2, 0)), example_after_opening) /\
  get_value (2, 0) example_after_opening = (Ok (Some 7), example_after_opening).
Proof.
  split; [|split; [intros g e; reflexivity|vm_compute; repeat split]].
  intros b lp allowed b1 Hwf Hlp Hls Hne.
  destruct (legal_set_nonempty b lp allowed b1 Hwf Hlp Hls Hne) as (-> & _ & Hne').
  destruct (strategy_ok Greedy b lp Hwf Hlp Hne') as (p & Hrun & i & Hi & Hmax & Hfirst).
  exists p, i. split; [exact Hrun|]. split; [exact Hi|]. cbn [strategy_key] in *. split.
  - intros j q Hq. specialize (Hmax j q Hq). rewrite tuple_cmp_single in Hmax.
    destruct (Z.compare_spec (value0 b q) (value0 b p)); [lia|lia|congruence].
  - intros j q Hj Hq. specialize (Hfirst j q Hj Hq). rewrite tuple_cmp_single in Hfirst.
    apply Z.compare_gt_iff in Hfirst. lia.
Qed.

(** ** Board construction *)

Lemma random_row_shape g k st : length (random_row g k st).1 = k /\
  Forall (fun v => v <> None) (random_row g k st).1.
Proof.
  revert st. induction k as [|k IH]; intros st; [split; [reflexivity|constructor]|].
  simpl. destruct (randint g 1 9 st) as [v st1].
  destruct (random_row g k st1) as [row st2] eqn:E. specialize (IH st1). rewrite E in IH.
  simpl in *. destruct IH as [IH1 IH2]. split; [lia|]. constructor; [discriminate|exact IH2].
Qed.

Lemma random_grid_shape g n k st : length (random_grid g n k st).1 = k /\
  Forall (fun row => length row = n) (random_grid g n k st).1.
Proof.
  revert st. induction k as [|k IH]; intros st; [split; [reflexivity|constructor]|].
  simpl. destruct (random_row g n st) as [row st1] eqn:Er.
  destruct (random_grid g n k st1) as [rows st2] eqn:E. specialize (IH st1). rewrite E in IH.
  simpl in *. destruct IH as [IH1 IH2]. split; [lia|]. constructor; [|exact IH2].
  pose proof (random_row_shape g n st) as [H _]. rewrite Er in H. exact H.
Qed.

Lemma preset_row_ok preset k idx : 0 <= idx -> idx + Z.of_nat k <= Z.of_nat (length preset) ->
  exists row, preset_row preset k idx = Ok (row, idx + Z.of_nat k) /\ length row = k /\
    (forall j, (j < k)%nat -> row !! j = Some (preset !! Z.to_nat (idx + Z.of_nat j))).
Proof.
  revert idx. induction k as [|k IH]; intros idx Hidx Hlen.
  - exists []. rewrite Z.add_0_r. split; [reflexivity|]. split; [reflexivity|]. intros; lia.
  - simpl. rewrite py_nth_in by lia.
    destruct (lookup_lt_is_Some_2 preset (Z.to_nat idx)) as [v Hv]; [lia|]. rewrite Hv.
    destruct (IH (idx + 1) ltac:(lia) ltac:(lia)) as (row & Hrow & Hl & Hj).
    rewrite Hrow. exists (Some v :: row). split; [f_equal; f_equal; lia|].
    split; [simpl; lia|]. intros [|j] Hjk; simpl.
    + rewrite Z.add_0_r, Hv. reflexivity.
    + rewrite Hj by lia. do 3 f_equal. lia.
Qed.

Lemma preset_grid_ok preset n k idx : 0 <= idx ->
  idx + Z.of_nat k * Z.of_nat n <= Z.of_nat (length preset) ->
  exists rows, preset_grid preset n k idx = Ok rows /\ length rows = k /\
    Forall (fun row => length row = n) rows /\
    (forall i j row, rows !! i = Some row -> (j < n)%nat ->
       row !! j = Some (preset !! Z.to_nat (idx + Z.of_nat i * Z.of_nat n + Z.of_nat j))).
Proof.
  revert idx. induction k as [|k IH]; intros idx Hidx Hlen.
  - exists []. split; [reflexivity|]. split; [reflexivity|]. split; [constructor|].
    intros i j row Hr. rewrite lookup_nil in Hr. discriminate.
  - simpl. destruct (preset_row_ok preset n idx Hidx ltac:(lia)) as (row & Hrow & Hl & Hj).
    rewrite Hrow.
    destruct (IH (idx + Z.of_nat n) ltac:(lia) ltac:(lia)) as (rows & Hrows & Hl' & Hf & Hij).
    rewrite Hrows. exists (row :: rows). split; [reflexivity|]. split; [simpl; lia|].
    split; [constructor; assumption|]. intros [|i] j row' Hr Hjn; simpl in Hr.
    + injection Hr as <-. rewrite Hj by exact Hjn. do 3 f_equal. lia.
    + rewrite (Hij i j row' Hr Hjn). do 3 f_equal. lia.
Qed.

Lemma init_preset_ok g n seed preset e :
  Z.of_nat (length preset) = n * n ->
  exists bd, BoardManager_init g n seed (Some preset) e = Ok bd /\ wf bd /\
    size bd = n /\ last_removed_pos bd = None /\
    (forall r c, in_bounds bd (r, c) = true ->
       cell bd r c = preset !! Z.to_nat (r * n + c)).
Proof.
  intros Hlen. unfold BoardManager_init, _init_board.
  rewrite bool_decide_eq_false_2 by (intros H; apply H; exact Hlen).
  destruct (preset_grid_ok preset (Z.to_nat n) (Z.to_nat n) 0 ltac:(lia) ltac:(lia))
    as (rows & Hrows & Hl & Hf & Hij).
  rewrite Hrows. eexists. split; [reflexivity|]. split; [split; assumption|].
  split; [reflexivity|]. split; [reflexivity|].
  intros r c Hin. apply in_bounds_iff in Hin. cbn [size] in Hin.
  unfold cell. cbn [grid].
  destruct (lookup_lt_is_Some_2 rows (Z.to_nat r)) as [row Hr]; [lia|]. rewrite Hr. simpl.
  rewrite (Hij _ _ row Hr) by lia. do 2 f_equal. lia.
Qed.

(** C7. With an integer seed and no preset, two constructions of the same
    size produce the same board cell by cell: the grid depends only on
    [size] and [seed], not on the entropy an unseeded generator would use. *)
Theorem seeded_construction_deterministic (g : RandomGen) (n seed e1 e2 : Z) :
  exists bd, BoardManager_init g n (Some seed) None e1 = Ok bd /\
             BoardManager_init g n (Some seed) None e2 = Ok bd /\ wf bd.
Proof.
  eexists. split; [reflexivity|]. split; [reflexivity|].
  destruct (random_grid_shape g (Z.to_nat n) (Z.to_nat n) (seeded g seed)) as [H1 H2].
  split; assumption.
Qed.

(** C9 as stated fails: a board of size 1 (below the documented minimum
    of 2) is constructed without error. *)
Lemma construction_accepts_size_one :
  BoardManager_init unit_gen 1 None (Some [5]) 0 = Ok (mkBoard 1 [[Some 5]] None).
Proof. reflexivity. Qed.

(** C9 (amended). Construction raises exactly when a preset is given whose
    length differs from [size*size]; it succeeds with a preset of exactly
    [size*size] values and always succeeds without a preset: [size] itself
    is not checked. *)
Theorem construction_errors (g : RandomGen) (n : Z) (seed : option Z)
    (preset : list Z) (e : Z) :
  (BoardManager_init g n seed (Some preset) e = Exc ValueError <->
     Z.of_nat (length preset) <> n * n) /\
  ((exists bd, BoardManager_init g n seed (Some preset) e = Ok bd) <->
     Z.of_nat (length preset) = n * n) /\
  (exists bd, BoardManager_init g n seed None e = Ok bd).
Proof.
  split; [|split].
  - destruct (decide (Z.of_nat (length preset) = n * n)) as [Heq|Hne].
    + destruct (init_preset_ok g n seed preset e Heq) as (bd & Hbd & _).
      rewrite Hbd. split; [discriminate|]. intros H; contradiction.
    + unfold BoardManager_init, _init_board.
      rewrite bool_decide_eq_true_2 by exact Hne. tauto.
  - split.
    + intros (bd & Hbd). destruct (decide (Z.of_nat (length preset) = n * n)) as [Heq|Hne];
        [exact Heq|].
      unfold BoardManager_init, _init_board in Hbd.
      rewrite bool_decide_eq_true_2 in Hbd by exact Hne. discriminate.
    + intros Heq. destruct (init_preset_ok g n seed preset e Heq) as (bd & Hbd & _). eauto.
  - eexists. reflexivity.
Qed.

(** C10. A preset of exactly [size*size] integers is stored verbatim,
    row-major, with no check of the range of its values:
    [get_value((r, c))] is [preset[r*size + c]]. *)
Theorem preset_stored_verbatim (g : RandomGen) (n : Z) (seed : option Z)
    (preset : list Z) (e : Z) :
  1 <= n -> Z.of_nat (length preset) = n * n ->
  exists bd, BoardManager_init g n seed (Some preset) e = Ok bd /\ wf bd /\
    forall r c, 0 <= r < n -> 0 <= c < n ->
      get_value (r, c) bd = (Ok (preset !! Z.to_nat (r * n + c)), bd).
Proof.
  intros Hn Hlen. destruct (init_preset_ok g n seed preset e Hlen) as (bd & Hbd & Hwf & Hs & _ & Hc).
  exists bd. split; [exact Hbd|]. split; [exact Hwf|].
  intros r c Hr Hc'. assert (Hin : in_bounds bd (r, c) = true) by (apply in_bounds_iff; lia).
  rewrite get_value_ok by assumption. cbn [fst snd]. rewrite Hc by exact Hin. reflexivity.
Qed.

(** ** The turn loop *)

Lemma length_flat_map_const {A B} (f : A -> list B) (l : list A) k :
  (forall x, length (f x) = k) -> length (flat_map f l) = (length l * k)%nat.
Proof.
  intros Hf. induction l as [|x l IH]; [reflexivity|].
  simpl. rewrite length_app, Hf, IH. lia.
Qed.

Lemma avail_count_bound b : (avail_count b <= Z.to_nat (size b) * Z.to_nat (size b))%nat.
Proof.
  unfold avail_count. etransitivity; [apply List.filter_length_le|].
  unfold cells. rewrite (length_flat_map_const _ _ (Z.to_nat (size b))).
  - unfold range. rewrite length_map, length_seq. lia.
  - intros r. unfold range. rewrite !length_map, length_seq. reflexivity.
Qed.

Lemma filter_length_mono {A} (f f' : A -> bool) (l : list A) :
  (forall y, In y l -> f' y = true -> f y = true) ->
  (length (List.filter f' l) <= length (List.filter f l))%nat.
Proof.
  induction l as [|y l IH]; intros Himp; simpl; [lia|].
  assert (Hy := Himp y (or_introl eq_refl)).
  specialize (IH (fun z Hz => Himp z (or_intror Hz))).
  destruct (f' y), (f y); simpl; try lia; specialize (Hy eq_refl); discriminate.
Qed.

Lemma filter_length_lt {A} (f f' : A -> bool) (l : list A) x :
  (forall y, In y l -> f' y = true -> f y = true) ->
  In x l -> f x = true -> f' x = false ->
  (length (List.filter f' l) < length (List.filter f l))%nat.
Proof.
  induction l as [|y l IH]; intros Himp Hx Hfx Hfx'; [destruct Hx|].
  assert (Hy := Himp y (or_introl eq_refl)).
  pose proof (filter_length_mono f f' l (fun z Hz => Himp z (or_intror Hz))) as Hle.
  destruct Hx as [<- | Hx]; simpl.
  - rewrite Hfx, Hfx'. simpl. lia.
  - specialize (IH (fun z Hz => Himp z (or_intror Hz)) Hx Hfx Hfx').
    destruct (f' y), (f y); simpl; try lia; specialize (Hy eq_refl); discriminate.
Qed.

Lemma remove_and_get_count b pos v b' : wf b -> remove_and_get pos b = (Ok v, b') ->
  wf b' /\ size b' = size b /\ in_bounds b pos = true /\ (avail_count b' < avail_count b)%nat.
Proof.
  intros Hwf Hr. destruct (decide (available b pos)) as [Hav|Hna].
  2:{ rewrite remove_and_get_fail in Hr by assumption. discriminate. }
  destruct Hav as [Hin Hp]. destruct (cell b pos.1 pos.2) as [w|] eqn:Hw; [|congruence].
  rewrite remove_and_get_ok with (v := w) in Hr by assumption. injection Hr as <- <-.
  destruct pos as [r c]. cbn [fst snd] in Hw.
  split; [apply wf_upd; assumption|]. split; [reflexivity|]. split; [exact Hin|].
  unfold avail_count, removed_board, with_last. cbn [size].
  apply (filter_length_lt _ _ _ (r, c)).
  - intros [r' c'] Hq Hp'. apply cells_In in Hq. apply present_true in Hp'.
    apply present_true. cbn [fst snd] in *.
    change (cell (upd_cell b r c None) r' c' <> None) in Hp'.
    rewrite cell_upd in Hp' by (assumption || (apply in_bounds_iff; exact Hq)).
    destruct (decide ((r', c') = (r, c))); [congruence|exact Hp'].
  - apply cells_In. apply in_bounds_iff. exact Hin.
  - apply present_true. cbn [fst snd]. congruence.
  - apply bool_decide_eq_false_2. cbn [fst snd]. intros H. apply H.
    change (cell (upd_cell b r c None) r c = None).
    rewrite cell_upd by assumption. rewrite decide_True by reflexivity. reflexivity.
Qed.

Lemma game_step_inv ctrl_A ctrl_B st st' : game_inv st -> game_step ctrl_A ctrl_B st st' ->
  game_inv st' /\ size (gs_board st') = size (gs_board st) /\
  (avail_count (gs_board st') < avail_count (gs_board st))%nat.
Proof.
  intros [Hwf Hlp] Hstep. inversion Hstep as [st0 allowed b1 move b2 v b3 Hls Hne Hmove Hrem]; subst.
  destruct (legal_set_nonempty _ _ _ _ Hwf Hlp Hls Hne) as (-> & -> & Hne').
  assert (Hb2 : b2 = gs_board st).
  { inversion Hmove as [? ? ? _ | s ? ? ? ? Hrun]; subst; [reflexivity|].
    destruct (strategy_ok s (gs_board st) (gs_last st) Hwf Hlp Hne') as (p & Hrun' & _).
    rewrite Hrun' in Hrun. congruence. }
  subst b2. destruct (remove_and_get_count _ _ _ _ Hwf Hrem) as (Hwf3 & Hs & Hin & Hlt).
  cbn [gs_board gs_last]. split; [|split; assumption].
  split; [exact Hwf3|]. intros p [= <-]. destruct move as [r c]. cbn [gs_board].
  apply in_bounds_iff in Hin. apply in_bounds_iff. rewrite Hs. exact Hin.
Qed.

Lemma game_steps_count ctrl_A ctrl_B k st st' : game_inv st ->
  game_steps ctrl_A ctrl_B k st st' ->
  game_inv st' /\ (k + avail_count (gs_board st') <= avail_count (gs_board st))%nat.
Proof.
  intros Hinv Hsteps. induction Hsteps as [st|k st st' st'' Hstep Hsteps IH]; [split; [exact Hinv|lia]|].
  destruct (game_step_inv _ _ _ _ Hinv Hstep) as (Hinv' & _ & Hlt).
  destruct (IH Hinv') as [Hinv'' Hle]. split; [exact Hinv''|]. lia.
Qed.

Lemma game_progress ctrl_A ctrl_B st : game_inv st ->
  terminated st \/ exists st', game_step ctrl_A ctrl_B st st'.
Proof.
  intros [Hwf Hlp]. destruct (legal_spec (gs_board st) (gs_last st)) as [|q qs] eqn:Hl.
  { left. exists (gs_board st). rewrite legal_set_ok by assumption. rewrite Hl. reflexivity. }
  right. set (ctrl := match gs_current st with PA => ctrl_A | PB => ctrl_B end).
  assert (Hne : legal_spec (gs_board st) (gs_last st) <> []) by (rewrite Hl; discriminate).
  assert (Hmove : exists move, In move (legal_spec (gs_board st) (gs_last st)) /\
                    turn_move ctrl (gs_last st) (gs_board st) move (gs_board st)).
  { destruct ctrl as [|s] eqn:Hc.
    - exists q. rewrite Hl. split; [left; reflexivity|]. constructor.
      assert (Hq : In q (legal_spec (gs_board st) (gs_last st))) by (rewrite Hl; left; reflexivity).
      pose proof (legal_in_bounds _ _ _ Hwf Hlp Hq) as Hqin.
      destruct (proj1 (legal_spec_In _ _ q Hwf Hlp) Hq) as [Hav Hrc].
      unfold human_accepts. rewrite Hqin. rewrite is_available_ok by exact Hwf.
      rewrite (proj2 (available_bool _ _) Hav). cbn [andb].
      destruct (gs_last st) as [[r0 c0]|]; [|reflexivity].
      destruct Hrc as [-> | ->]; rewrite Z.eqb_refl; [reflexivity|apply orb_true_r].
    - destruct (strategy_ok s (gs_board st) (gs_last st) Hwf Hlp Hne) as (p & Hrun & i & Hi & _).
      exists p. split; [apply list_elem_of_In; eapply list_elem_of_lookup_2; exact Hi|].
      constructor. exact Hrun. }
  destruct Hmove as (move & Hin & Hturn).
  destruct (proj1 (legal_spec_In _ _ move Hwf Hlp) Hin) as [[Hmb Hmp] _].
  destruct (cell (gs_board st) move.1 move.2) as [v|] eqn:Hv; [|congruence].
  eexists. eapply (step_move ctrl_A ctrl_B st _ (gs_board st) move (gs_board st) v).
  - apply legal_set_ok; assumption.
  - exact Hne.
  - exact Hturn.
  - apply remove_and_get_ok; assumption.
Qed.

(** C8. From the opening state of a game (any well-formed board, no
    previous move, any controllers), every run of the turn loop executes at
    most [size*size] moves, and every state it reaches either has an empty
    legal set (the loop breaks: game over) or admits a further move. *)
Theorem game_terminates (ctrl_A ctrl_B : Controller) (st0 st : GameState) (k : nat) :
  wf (gs_board st0) -> gs_last st0 = None -> game_steps ctrl_A ctrl_B k st0 st ->
  Z.of_nat k <= size (gs_board st0) * size (gs_board st0) /\
  (terminated st \/ exists st', game_step ctrl_A ctrl_B st st').
Proof.
  intros Hwf Hlast Hsteps.
  assert (Hinv : game_inv st0) by (split; [exact Hwf|intros p Hp; congruence]).
  destruct (game_steps_count _ _ _ _ _ Hinv Hsteps) as [Hinv' Hle].
  pose proof (avail_count_bound (gs_board st0)). split; [|apply game_progress; exact Hinv'].
  nia.
Qed.

(** ** Further properties of the board, the game loop and the menus *)

Lemma any_loop_ok b ps : wf b -> (forall q, In q ps -> in_bounds b q = true) ->
  any_loop ps b = (Ok (existsb (present b) ps), b).
Proof.
  intros Hwf. induction ps as [|[r c] ps IH]; intros Hps; [reflexivity|].
  simpl. unfold bindM. rewrite get_cell_ok by (auto; apply Hps; left; reflexivity).
  cbn [existsb]. destruct (cell b r c) as [v|] eqn:Hv; cbv beta iota.
  - replace (present b (r, c)) with true; [reflexivity|].
    symmetry. apply present_true. cbn [fst snd]. congruence.
  - replace (present b (r, c)) with false.
    + apply IH. intros; apply Hps; right; assumption.
    + symmetry. apply not_true_iff_false. rewrite present_true. cbn [fst snd]. tauto.
Qed.

Lemma filter_nil_existsb {A} (f : A -> bool) l : List.filter f l <> [] <-> existsb f l = true.
Proof.
  induction l as [|x l IH]; simpl; [split; [congruence|discriminate]|].
  destruct (f x); simpl; [split; [reflexivity|discriminate]|exact IH].
Qed.

(** X1: On a well-formed board, [any_available] leaves the board unchanged and returns [True] exactly when [get_all_available_positions] is non-empty, that is, exactly when some cell still holds a value. *)
Theorem any_available_spec (b : Board) : wf b ->
  exists res avail, any_available b = (Ok res, b) /\
    get_all_available_positions b = (Ok avail, b) /\
    (res = true <-> avail <> []) /\
    (res = true <-> exists q, available b q).
Proof.
  intros Hwf. exists (existsb (present b) (cells (size b))), (List.filter (present b) (cells (size b))).
  split.
  { unfold any_available, bindM, get_board. apply any_loop_ok; [exact Hwf|].
    intros [r c] Hq. apply cells_In in Hq. apply in_bounds_iff. exact Hq. }
  split; [apply get_all_ok; exact Hwf|].
  split; [symmetry; apply filter_nil_existsb|].
  rewrite existsb_exists. split.
  - intros (q & Hq & Hp). exists q. apply cells_filter_In; [exact Hwf|]. apply filter_In. auto.
  - intros (q & Hq). exists q. apply (cells_filter_In b q Hwf) in Hq. apply filter_In in Hq. exact Hq.
Qed.

(* negative indices *)
Lemma py_idx_mod len i :
  py_idx len i = if bool_decide (- Z.of_nat len <= i < Z.of_nat len)
                 then Some (Z.to_nat (i mod Z.of_nat len)) else None.
Proof.
  unfold py_idx.
  destruct (bool_decide_reflect (- Z.of_nat len <= i < Z.of_nat len)) as [H|H].
  - destruct (Z.leb_spec 0 i), (Z.ltb_spec i (Z.of_nat len)); simpl; try lia.
    + rewrite Z.mod_small by lia. reflexivity.
    + destruct (Z.leb_spec (- Z.of_nat len) i), (Z.ltb_spec i 0); simpl; try lia.
      f_equal. rewrite <- (Z.mod_small (Z.of_nat len + i) (Z.of_nat len)) by lia.
      f_equal. rewrite Z.add_comm. rewrite <- (Z.mod_add i 1 (Z.of_nat len)) by lia.
      f_equal. lia.
  - destruct (Z.leb_spec 0 i), (Z.ltb_spec i (Z.of_nat len)); simpl; try lia;
    destruct (Z.leb_spec (- Z.of_nat len) i), (Z.ltb_spec i 0); simpl; try lia; reflexivity.
Qed.

(** X2: [get_value] indexes the grid the Python way: row and column indices in [-size, size) are taken modulo [size] (so [-1] reads the last row or column), and any other index raises [IndexError]. *)
Theorem get_value_python_index (b : Board) (r c : Z) : wf b ->
  ((- size b <= r < size b /\ - size b <= c < size b) ->
     get_value (r, c) b = (Ok (cell b (r mod size b) (c mod size b)), b)) /\
  (~ (- size b <= r < size b /\ - size b <= c < size b) ->
     get_value (r, c) b = (Exc IndexError, b)).
Proof.
  intros Hwf. destruct (Z.le_gt_cases 0 (size b)) as [Hs|Hs].
  2:{ split; [lia|]. intros _. destruct Hwf as [Hlen _].
      unfold get_value, get_cell, py_nth. rewrite Hlen. replace (Z.to_nat (size b)) with 0%nat by lia.
      rewrite py_idx_mod. rewrite bool_decide_eq_false_2 by lia. reflexivity. }
  unfold get_value, get_cell, py_nth. destruct Hwf as [Hlen Hrows] eqn:Hwf'.
  rewrite Hlen, py_idx_mod. rewrite Z2Nat.id by exact Hs.
  split.
  - intros [Hr Hc]. rewrite bool_decide_eq_true_2 by exact Hr. cbn [mbind option_bind].
    assert (Hr' : 0 <= r mod size b < size b) by (apply Z.mod_pos_bound; lia).
    assert (Hc' : 0 <= c mod size b < size b) by (apply Z.mod_pos_bound; lia).
    destruct (wf_row b (r mod size b) Hwf Hr') as (row & Hrow & Hrl).
    rewrite Hrow. simpl. rewrite py_idx_mod, Hrl, Z2Nat.id by exact Hs.
    rewrite bool_decide_eq_true_2 by exact Hc.
    destruct (lookup_lt_is_Some_2 row (Z.to_nat (c mod size b))) as [v Hv]; [lia|].
    simpl. rewrite Hv. unfold cell. rewrite Hrow. simpl. rewrite Hv. reflexivity.
  - intros Hn. destruct (decide (- size b <= r < size b)) as [Hr|Hr].
    + rewrite bool_decide_eq_true_2 by exact Hr.
      assert (Hr' : 0 <= r mod size b < size b) by (apply Z.mod_pos_bound; lia).
      destruct (wf_row b (r mod size b) Hwf Hr') as (row & Hrow & Hrl).
      simpl. rewrite Hrow. simpl. rewrite py_idx_mod, Hrl, Z2Nat.id by exact Hs.
      rewrite bool_decide_eq_false_2 by tauto. reflexivity.
    + rewrite bool_decide_eq_false_2 by exact Hr. reflexivity.
Qed.

(** X3: [is_available] never raises and leaves the board unchanged: it returns [True] exactly when the position is in bounds and its cell still holds a value. *)
Theorem is_available_spec (b : Board) (pos : Position) : wf b ->
  is_available pos b = (Ok (bool_decide (available b pos)), b).
Proof.
  intros Hwf. rewrite is_available_ok by exact Hwf. do 2 f_equal.
  destruct (decide (available b pos)) as [H|H].
  - rewrite bool_decide_eq_true_2 by exact H. apply available_bool. exact H.
  - rewrite bool_decide_eq_false_2 by exact H. apply not_true_iff_false.
    rewrite available_bool. exact H.
Qed.

(** X4: [max_remaining_value] returns a value [m >= 0] that bounds every remaining cell value; [m] is the value of a remaining cell as soon as some remaining value is non-negative, and [m = 0] when every remaining value is negative. *)
Theorem max_remaining_value_spec (b : Board) : wf b ->
  exists m, max_remaining_value b = (Ok m, b) /\ 0 <= m /\
    (forall q, available b q -> value0 b q <= m) /\
    ((exists q, available b q /\ 0 <= value0 b q) -> exists q, available b q /\ value0 b q = m) /\
    ((forall q, available b q -> value0 b q < 0) -> m = 0).
Proof.
  intros Hwf. exists (max_spec b). split; [apply max_remaining_value_ok; exact Hwf|].
  destruct (max_spec_bound b Hwf) as (H0 & Hle & Hat). split; [exact H0|]. split; [exact Hle|].
  split.
  - intros (q & Hq & Hq0). destruct Hat as [Hz | Hex]; [|exact Hex].
    exists q. split; [exact Hq|]. specialize (Hle q Hq). lia.
  - intros Hneg. destruct Hat as [Hz | (q & Hq & Hv)]; [exact Hz|].
    specialize (Hneg q Hq). lia.
Qed.

(** X5: With a non-empty allowed set, [strategy_minimize_opponent_options] returns the first allowed position that maximises the key (minus the number of opponent replies after removing it, its own value), and restores the board. *)
Theorem minimize_opponent_options_choice (b : Board) (lp : option Position)
    (allowed : list Position) (b1 : Board) :
  wf b -> (forall p, lp = Some p -> in_bounds b p = true) ->
  legal_set lp b = (Ok allowed, b1) -> allowed <> [] ->
  exists p, strategy_minimize_opponent_options lp b = (Ok (Some p), b) /\
    first_argmax (fun q => [- Z.of_nat (length (opp_replies b q)); value0 b q]) allowed p.
Proof.
  intros Hwf Hlp Hls Hne.
  destruct (legal_set_nonempty b lp allowed b1 Hwf Hlp Hls Hne) as (-> & _ & Hne').
  exact (strategy_ok MinimizeOpponentOptions b lp Hwf Hlp Hne').
Qed.

Lemma first_argmax_In key l p : first_argmax key l p -> In p l.
Proof. intros (i & Hi & _). apply list_elem_of_In. eapply list_elem_of_lookup_2. exact Hi. Qed.

(** X6: For every strategy, computing the allowed set leaves the board unchanged; with no allowed move the strategy raises [ValueError], otherwise it returns a position of the allowed set that is still available, with the board as it was. *)
Theorem strategy_outcome (s : Strategy) (b : Board) (lp : option Position)
    (allowed : list Position) (b1 : Board) :
  wf b -> (forall p, lp = Some p -> in_bounds b p = true) ->
  legal_set lp b = (Ok allowed, b1) ->
  b1 = b /\
  (allowed = [] -> run_strategy s lp b = (Exc ValueError, b)) /\
  (allowed <> [] -> exists p, run_strategy s lp b = (Ok (Some p), b) /\
                              In p allowed /\ available b p).
Proof.
  intros Hwf Hlp Hls. rewrite legal_set_ok in Hls by assumption. injection Hls as <- <-.
  split; [reflexivity|]. split.
  - intros Hnil.
    assert (Hr : allowed_or_raise lp b = (Exc ValueError, b)).
    { unfold allowed_or_raise, bindM. rewrite legal_set_ok by assumption. rewrite Hnil. reflexivity. }
    destruct s; cbn [run_strategy];
      [unfold strategy_greedy_maximize | unfold strategy_maximize_future_min
      | unfold strategy_minimize_opponent_options | unfold strategy_high_value_preservation];
      unfold bindM at 1; rewrite Hr; reflexivity.
  - intros Hne. destruct (strategy_ok s b lp Hwf Hlp Hne) as (p & Hrun & Harg).
    apply first_argmax_In in Harg. exists p. split; [exact Hrun|]. split; [exact Harg|].
    apply (legal_spec_In b lp p Hwf Hlp) in Harg. tauto.
Qed.

Lemma human_accepts_iff b lp pos : wf b -> (forall p, lp = Some p -> in_bounds b p = true) ->
  human_accepts b lp pos = true <-> In pos (legal_spec b lp).
Proof.
  intros Hwf Hlp. rewrite legal_spec_In by assumption.
  unfold human_accepts. rewrite is_available_ok by exact Hwf.
  rewrite <- available_bool.
  destruct (in_bounds b pos), (present b pos); cbn [andb]; try (split; [discriminate|intros [H _]; discriminate]).
  destruct lp as [[r0 c0]|]; [|tauto].
  rewrite orb_true_iff, !Z.eqb_eq. tauto.
Qed.

(** X7: The checks of the human move loop of [start_game] (in bounds, available, same row or column as the last move) accept a position exactly when it belongs to the allowed set of that turn. *)
Theorem human_move_check (b : Board) (lp : option Position) (pos : Position)
    (allowed : list Position) (b1 : Board) :
  wf b -> (forall p, lp = Some p -> in_bounds b p = true) ->
  legal_set lp b = (Ok allowed, b1) ->
  (human_accepts b lp pos = true <-> In pos allowed).
Proof.
  intros Hwf Hlp Hls. rewrite legal_set_ok in Hls by assumption. injection Hls as <- <-.
  apply human_accepts_iff; assumption.
Qed.

(* ---------------- game bookkeeping ---------------- *)

Lemma pairs_NoDup (rs cs : list Z) : List.NoDup rs -> List.NoDup cs ->
  List.NoDup (flat_map (fun r => map (fun c => (r, c)) cs) rs).
Proof.
  intros Hr Hc. induction rs as [|r rs IH]; simpl; [constructor|].
  inversion Hr as [|? ? Hnr Hrs]; subst. apply List.NoDup_app.
  - apply NoDup_map_NoDup_ForallPairs; [|exact Hc]. intros x y _ _ H. congruence.
  - apply IH. exact Hrs.
  - intros [r' c] Hp Hp'. apply in_map_iff in Hp as (c' & [= <- <-] & _).
    apply in_flat_map in Hp' as (r'' & Hr'' & Hp'). apply in_map_iff in Hp' as (c'' & [= -> _] & _).
    contradiction.
Qed.

Lemma cells_NoDup n : List.NoDup (cells n).
Proof. apply pairs_NoDup; apply range_NoDup. Qed.

Lemma sum_map_ext {A} (f g : A -> Z) (l : list A) :
  (forall y, In y l -> g y = f y) -> sumZ (map g l) = sumZ (map f l).
Proof.
  induction l as [|y l IH]; intros Hg; [reflexivity|]. cbn [map sumZ fold_right].
  rewrite Hg by (left; reflexivity). f_equal. apply IH. intros; apply Hg; right; assumption.
Qed.

Lemma sum_map_update {A} `{EqDecision A} (f g : A -> Z) (l : list A) (x : A) :
  List.NoDup l -> In x l -> (forall y, In y l -> y <> x -> g y = f y) ->
  sumZ (map g l) = sumZ (map f l) - f x + g x.
Proof.
  induction l as [|y l IH]; intros Hnd Hx Hg; [destruct Hx|].
  inversion Hnd as [|? ? Hny Hl]; subst. cbn [map sumZ fold_right].
  fold (sumZ (map g l)) (sumZ (map f l)).
  destruct (decide (y = x)) as [-> | Hne].
  - rewrite (sum_map_ext f g l); [lia|].
    intros w Hw. apply Hg; [right; exact Hw|]. intros ->. contradiction.
  - destruct Hx as [-> | Hx]; [congruence|].
    rewrite Hg by (first [left; reflexivity | exact Hne]).
    rewrite IH; [lia|exact Hl|exact Hx|intros; apply Hg; [right|]; assumption].
Qed.

Lemma length_filter_sum {A} (f : A -> bool) (l : list A) :
  Z.of_nat (length (List.filter f l)) = sumZ (map (fun x => if f x then 1 else 0) l).
Proof.
  induction l as [|x l IH]; [reflexivity|]. cbn [List.filter map sumZ fold_right].
  fold (sumZ (map (fun x => if f x then 1 else 0) l)). destruct (f x); simpl; lia.
Qed.

Lemma cell_removed b pos q : wf b -> in_bounds b pos = true -> in_bounds b q = true ->
  cell (removed_board b pos) q.1 q.2 = if decide (q = pos) then None else cell b q.1 q.2.
Proof.
  destruct pos as [r c], q as [r' c']. intros Hwf Hin Hin'. unfold removed_board, with_last.
  cbn [fst snd]. change (cell (upd_cell b r c None) r' c' = if decide ((r', c') = (r, c)) then None else cell b r' c').
  apply cell_upd; assumption.
Qed.

Lemma board_total_removed b pos v : wf b -> in_bounds b pos = true ->
  cell b pos.1 pos.2 = Some v ->
  board_total (removed_board b pos) = board_total b - v.
Proof.
  intros Hwf Hin Hv. unfold board_total. change (size (removed_board b pos)) with (size b).
  rewrite (sum_map_update (value0 b) (value0 (removed_board b pos)) _ pos).
  - unfold value0 at 2 3. rewrite cell_removed, decide_True, Hv by (auto || reflexivity). simpl. lia.
  - apply cells_NoDup.
  - apply cells_In. destruct pos as [r c]. apply in_bounds_iff. exact Hin.
  - intros q Hq Hne. unfold value0. rewrite cell_removed; [|assumption..|].
    + rewrite decide_False by exact Hne. reflexivity.
    + apply cells_In in Hq. destruct q as [r c]. apply in_bounds_iff. exact Hq.
Qed.

Lemma avail_count_removed b pos v : wf b -> in_bounds b pos = true ->
  cell b pos.1 pos.2 = Some v ->
  (avail_count (removed_board b pos) + 1 = avail_count b)%nat.
Proof.
  intros Hwf Hin Hv. unfold avail_count. change (size (removed_board b pos)) with (size b).
  apply Nat2Z.inj. rewrite Nat2Z.inj_add, !length_filter_sum.
  rewrite (sum_map_update (fun x => if present b x then 1 else 0)
             (fun x => if present (removed_board b pos) x then 1 else 0) _ pos).
  - unfold present at 2 3. rewrite cell_removed, decide_True, Hv by (auto || reflexivity).
    rewrite bool_decide_eq_true_2 by discriminate. rewrite bool_decide_eq_false_2 by congruence. lia.
  - apply cells_NoDup.
  - apply cells_In. destruct pos as [r c]. apply in_bounds_iff. exact Hin.
  - intros q Hq Hne. unfold present. rewrite cell_removed; [|assumption..|].
    + rewrite decide_False by exact Hne. reflexivity.
    + apply cells_In in Hq. destruct q as [r c]. apply in_bounds_iff. exact Hq.
Qed.

Lemma game_step_move ctrl_A ctrl_B st st' : game_inv st -> game_step ctrl_A ctrl_B st st' ->
  exists move v, In move (legal_spec (gs_board st) (gs_last st)) /\
    in_bounds (gs_board st) move = true /\
    cell (gs_board st) move.1 move.2 = Some v /\
    st' = mkGame (removed_board (gs_board st) move) (Some move) (other (gs_current st))
            (match gs_current st with PA => a_score st + v | PB => a_score st end)
            (match gs_current st with PA => b_score st | PB => b_score st + v end)
            (round_num st + 1).
Proof.
  intros [Hwf Hlp] Hstep. inversion Hstep as [st0 allowed b1 move b2 v b3 Hls Hne Hmove Hrem]; subst.
  destruct (legal_set_nonempty _ _ _ _ Hwf Hlp Hls Hne) as (-> & -> & Hne').
  assert (Hlegal : b2 = gs_board st /\ In move (legal_spec (gs_board st) (gs_last st))).
  { inversion Hmove as [? ? ? Hacc | s ? ? ? ? Hrun]; subst.
    - split; [reflexivity|]. apply human_accepts_iff; assumption.
    - destruct (strategy_ok s (gs_board st) (gs_last st) Hwf Hlp Hne') as (p & Hrun' & Harg).
      rewrite Hrun' in Hrun. injection Hrun as <- <-. split; [reflexivity|].
      eapply first_argmax_In. exact Harg. }
  destruct Hlegal as [-> Hin].
  destruct (proj1 (legal_spec_In _ _ move Hwf Hlp) Hin) as [[Hmb Hmp] _].
  destruct (cell (gs_board st) move.1 move.2) as [w|] eqn:Hw; [|congruence].
  rewrite remove_and_get_ok with (v := w) in Hrem by assumption. injection Hrem as <- <-.
  exists move, w. split; [exact Hin|]. split; [exact Hmb|]. split; [exact Hw|].
  destruct (gs_current st); reflexivity.
Qed.

Lemma game_inv_step ctrl_A ctrl_B st st' : game_inv st -> game_step ctrl_A ctrl_B st st' -> game_inv st'.
Proof. intros Hinv Hstep. exact (proj1 (game_step_inv _ _ _ _ Hinv Hstep)). Qed.

(** X8: Over any [k] turns of [start_game], A's score plus B's score plus the values left on the board stays constant, the round counter grows by [k], and the number of available cells drops by exactly [k]. *)
Theorem game_score_accounting (ctrl_A ctrl_B : Controller) (k : nat) (st0 st : GameState) :
  game_inv st0 -> game_steps ctrl_A ctrl_B k st0 st ->
  a_score st + b_score st + board_total (gs_board st) =
    a_score st0 + b_score st0 + board_total (gs_board st0) /\
  round_num st = round_num st0 + Z.of_nat k /\
  (avail_count (gs_board st) + k = avail_count (gs_board st0))%nat.
Proof.
  intros Hinv Hsteps. induction Hsteps as [st|k st st' st'' Hstep Hsteps IH].
  - split; [reflexivity|]. split; [lia|lia].
  - pose proof (game_inv_step _ _ _ _ Hinv Hstep) as Hinv'.
    destruct (IH Hinv') as (H1 & H2 & H3).
    destruct Hinv as [Hwf Hlp].
    destruct (game_step_move _ _ _ _ (conj Hwf Hlp) Hstep) as (move & v & _ & Hin & Hv & ->).
    cbn [gs_board a_score b_score round_num] in *.
    pose proof (board_total_removed _ _ _ Hwf Hin Hv).
    pose proof (avail_count_removed _ _ _ Hwf Hin Hv).
    split; [destruct (gs_current st); lia|]. split; lia.
Qed.

(** X9: Over [k] turns the board's [last_removed_pos] stays equal to the last move of the loop, the player to move alternates (same as at the start after an even number of turns), and after at least one turn the last move is an in-bounds cell that has been emptied. *)
Theorem game_turn_bookkeeping (ctrl_A ctrl_B : Controller) (k : nat) (st0 st : GameState) :
  game_inv st0 -> last_removed_pos (gs_board st0) = gs_last st0 ->
  game_steps ctrl_A ctrl_B k st0 st ->
  last_removed_pos (gs_board st) = gs_last st /\
  gs_current st = (if Nat.even k then gs_current st0 else other (gs_current st0)) /\
  ((0 < k)%nat -> exists p, gs_last st = Some p /\ in_bounds (gs_board st) p = true /\
                            cell (gs_board st) p.1 p.2 = None).
Proof.
  intros Hinv Hlast Hsteps. induction Hsteps as [st|k st st' st'' Hstep Hsteps IH].
  - split; [exact Hlast|]. split; [reflexivity|lia].
  - pose proof (game_inv_step _ _ _ _ Hinv Hstep) as Hinv'.
    destruct (game_step_move _ _ _ _ Hinv Hstep) as (move & v & _ & Hin & Hv & Hst').
    assert (Hlast' : last_removed_pos (gs_board st') = gs_last st') by (rewrite Hst'; reflexivity).
    destruct (IH Hinv' Hlast') as (H1 & H2 & H3). split; [exact H1|]. split.
    + rewrite H2, Hst'. cbn [gs_current]. rewrite Nat.even_succ, <- Nat.negb_even.
      destruct (Nat.even k), (gs_current st); reflexivity.
    + intros _. destruct k as [|k].
      * assert (Heq : st'' = st') by (inversion Hsteps; reflexivity). subst st''.
        exists move. rewrite Hst'. cbn [gs_last gs_board].
        split; [reflexivity|]. split; [exact Hin|].
        destruct Hinv as [Hwf _]. rewrite cell_removed by assumption. rewrite decide_True by reflexivity. reflexivity.
      * apply H3. lia.
Qed.

(** X10: Every turn of [start_game] removes a position of the allowed set computed from the previous move, records it as the last move, and changes the board only by emptying that cell. *)
Theorem game_move_legal (ctrl_A ctrl_B : Controller) (st st' : GameState) :
  game_inv st -> game_step ctrl_A ctrl_B st st' ->
  exists move allowed b1, legal_set (gs_last st) (gs_board st) = (Ok allowed, b1) /\
    In move allowed /\ gs_last st' = Some move /\
    gs_board st' = removed_board (gs_board st) move.
Proof.
  intros Hinv Hstep. destruct (game_step_move _ _ _ _ Hinv Hstep) as (move & v & Hin & _ & _ & ->).
  destruct Hinv as [Hwf Hlp].
  exists move, (legal_spec (gs_board st) (gs_last st)), (gs_board st).
  split; [apply legal_set_ok; assumption|]. auto.
Qed.

Lemma lstrip_nonspace a s : py_isspace a = false -> lstrip (a :: s) = a :: s.
Proof. intros H. simpl. now rewrite H. Qed.

Lemma lstrip_app x y : lstrip x <> [] -> lstrip (x ++ y) = lstrip x ++ y.
Proof.
  induction x as [|a x IH]; simpl; [congruence|].
  destruct (py_isspace a); auto.
Qed.

Lemma lstrip_spaces w s : Forall (fun a => py_isspace a = true) w -> lstrip (w ++ s) = lstrip s.
Proof. induction 1 as [|a w Ha _ IH]; simpl; [reflexivity|]. now rewrite Ha. Qed.

Lemma lstrip_all_nonspace s : Forall nonspace s -> lstrip s = s.
Proof. destruct 1; [reflexivity|]. now apply lstrip_nonspace. Qed.

Lemma rstrip_all_nonspace s : Forall nonspace s -> rstrip s = s.
Proof.
  intros H. unfold rstrip. rewrite lstrip_all_nonspace.
  - apply rev_involutive.
  - now apply Forall_rev.
Qed.

Lemma strip_all_nonspace s : Forall nonspace s -> py_strip s = s.
Proof.
  intros H. unfold py_strip. rewrite lstrip_all_nonspace by exact H.
  now apply rstrip_all_nonspace.
Qed.

Lemma rstrip_app x y : rstrip y <> [] -> rstrip (x ++ y) = x ++ rstrip y.
Proof.
  unfold rstrip. intros H. rewrite rev_app_distr, lstrip_app.
  - now rewrite rev_app_distr, rev_involutive.
  - intros E. apply H. now rewrite E.
Qed.

Lemma rstrip_spaces s w : Forall (fun a => py_isspace a = true) w -> rstrip (s ++ w) = rstrip s.
Proof.
  intros H. unfold rstrip. rewrite rev_app_distr, lstrip_spaces; [reflexivity|].
  now apply Forall_rev.
Qed.

Lemma lstrip_suffix s : exists p, s = p ++ lstrip s.
Proof.
  induction s as [|a s [p IH]]; simpl; [now exists []|].
  destruct (py_isspace a); [exists (a :: p); simpl; congruence | now exists []].
Qed.

Lemma rstrip_prefix s : exists q, s = rstrip s ++ q.
Proof.
  destruct (lstrip_suffix (rev s)) as [p Hp]. exists (rev p).
  unfold rstrip. rewrite <- rev_app_distr, <- Hp. now rewrite rev_involutive.
Qed.

(** A stripped string is left alone by both halves of [strip]. *)
Lemma stripped_parts s : py_strip s = s -> lstrip s = s /\ rstrip s = s.
Proof.
  unfold py_strip. intros H.
  destruct (lstrip_suffix s) as [p Hp]. destruct (rstrip_prefix (lstrip s)) as [q Hq].
  rewrite H in Hq. rewrite Hq in Hp.
  assert (Hl : length s = length (p ++ s ++ q)) by (f_equal; exact Hp).
  rewrite !length_app in Hl.
  destruct p; [|simpl in Hl; lia]. destruct q; [|simpl in Hl; lia].
  rewrite app_nil_r in Hq. simpl in Hp.
  split; [congruence|]. rewrite <- Hq in H. congruence.
Qed.

(** *** [str(n)] and [int(s)] *)

Lemma ord_digit_char d : 0 <= d < 10 -> ord (digit_char d) = (48 + Z.to_nat d)%nat.
Proof.
  intros Hd. unfold ord, digit_char. apply Ascii.nat_ascii_embedding. lia.
Qed.

Lemma is_digit_char d : 0 <= d < 10 -> is_digit (digit_char d) = true.
Proof.
  intros Hd. unfold is_digit. rewrite ord_digit_char by exact Hd.
  apply andb_true_iff; split; apply Nat.leb_le; lia.
Qed.

Lemma digits_of_parse fuel n acc b :
  0 <= n -> (Z.to_nat n < fuel)%nat ->
  int_digits (digits_of fuel n acc) 0 b = int_digits acc n true.
Proof.
  revert n acc b. induction fuel as [|f IH]; intros n acc b Hn Hf; [lia|].
  cbn [digits_of].
  assert (Hd : 0 <= n mod 10 < 10) by (apply Z.mod_pos_bound; lia).
  destruct (Z.ltb_spec n 10) as [Hlt|Hge].
  - cbn [int_digits]. rewrite is_digit_char by exact Hd.
    rewrite ord_digit_char by exact Hd. f_equal.
    rewrite Z.mod_small by lia. lia.
  - rewrite IH.
    + cbn [int_digits]. rewrite is_digit_char by exact Hd.
      rewrite ord_digit_char by exact Hd. f_equal.
      replace (Z.of_nat (48 + Z.to_nat (n mod 10) - 48)) with (n mod 10) by lia.
      rewrite (Z.div_mod n 10) at 3 by lia. lia.
    + apply Z.div_pos; lia.
    + assert (n / 10 < n) by (apply Z.div_lt; lia). lia.
Qed.

Lemma digits_of_chars fuel n acc :
  0 <= n -> Forall (fun a => is_digit a = true) acc ->
  Forall (fun a => is_digit a = true) (digits_of fuel n acc).
Proof.
  revert n acc. induction fuel as [|f IH]; intros n acc Hn Hacc; [exact Hacc|].
  cbn [digits_of].
  assert (Hd : 0 <= n mod 10 < 10) by (apply Z.mod_pos_bound; lia).
  assert (Hc : Forall (fun a => is_digit a = true) (digit_char (n mod 10) :: acc))
    by (constructor; [apply is_digit_char|]; assumption).
  destruct (n <? 10); [exact Hc|]. apply IH; [apply Z.div_pos; lia|exact Hc].
Qed.

Lemma digits_of_cons fuel n acc : (0 < fuel)%nat -> exists a s, digits_of fuel n acc = a :: s.
Proof.
  revert n acc. induction fuel as [|f IH]; intros n acc Hf; [lia|].
  cbn [digits_of]. destruct (n <? 10); [eauto|].
  destruct f as [|f]; [simpl; eauto|]. apply IH. lia.
Qed.

Lemma py_str_chars z : Forall digit_like (py_str z).
Proof.
  assert (H : Forall (fun a => is_digit a = true)
                (digits_of (S (Z.to_nat (Z.abs z))) (Z.abs z) []))
    by (apply digits_of_chars; [lia|constructor]).
  unfold py_str. destruct (z <? 0).
  - constructor; [now right|]. eapply Forall_impl; [exact H|]. intros a Ha; now left.
  - eapply Forall_impl; [exact H|]. intros a Ha; now left.
Qed.

Lemma digit_like_nonspace a : digit_like a -> nonspace a.
Proof.
  unfold digit_like, nonspace, is_digit, py_isspace. intros [H | ->]; [|reflexivity].
  apply andb_true_iff in H as [H1 H2]. apply Nat.leb_le in H1, H2.
  destruct (Nat.leb_spec 9 (ord a)), (Nat.leb_spec (ord a) 13),
    (Nat.leb_spec 28 (ord a)), (Nat.leb_spec (ord a) 32); simpl; lia.
Qed.

Lemma py_str_nonspace z : Forall nonspace (py_str z).
Proof. eapply Forall_impl; [apply py_str_chars|]. apply digit_like_nonspace. Qed.

Lemma strip_py_str z : py_strip (py_str z) = py_str z.
Proof. apply strip_all_nonspace, py_str_nonspace. Qed.

Lemma py_str_not_nil z : py_str z <> [].
Proof.
  unfold py_str. destruct (digits_of_cons (S (Z.to_nat (Z.abs z))) (Z.abs z) []) as (a & s & ->); [lia|].
  destruct (z <? 0); discriminate.
Qed.

Lemma py_int_py_str z : py_int (py_str z) = Some z.
Proof.
  unfold py_int. rewrite strip_py_str.
  pose proof (digits_of_parse (S (Z.to_nat (Z.abs z))) (Z.abs z) [] false) as Hp.
  pose proof (digits_of_chars (S (Z.to_nat (Z.abs z))) (Z.abs z) []) as Hc.
  destruct (digits_of_cons (S (Z.to_nat (Z.abs z))) (Z.abs z) []) as (a & s & Hd); [lia|].
  unfold py_str. rewrite Hd in *.
  destruct (Z.ltb_spec z 0).
  - rewrite decide_True by reflexivity. cbn [option_map]. rewrite Hp by lia. simpl. f_equal. lia.
  - assert (Ha : is_digit a = true).
    { specialize (Hc ltac:(lia) ltac:(constructor)). now inversion Hc. }
    rewrite !decide_False.
    + rewrite Hp by lia. simpl. f_equal. lia.
    + intros ->. discriminate.
    + intros ->. discriminate.
Qed.

(** *** [split] and [join] *)

Lemma py_split_single sep s : sep ∉ s -> py_split sep s = [s].
Proof.
  induction s as [|a s IH]; intros Hn; [reflexivity|].
  cbn [py_split]. rewrite decide_False by (intros ->; apply Hn; left).
  rewrite IH by (intros Hin; apply Hn; now right). reflexivity.
Qed.

Lemma py_split_app sep p r : sep ∉ p -> py_split sep (p ++ sep :: r) = p :: py_split sep r.
Proof.
  induction p as [|a p IH]; intros Hn; cbn [app py_split].
  - now rewrite decide_True.
  - rewrite decide_False by (intros ->; apply Hn; left).
    rewrite IH by (intros Hin; apply Hn; now right). reflexivity.
Qed.

Lemma py_split_join sep parts :
  parts <> [] -> Forall (fun p => sep ∉ p) parts -> py_split sep (py_join [sep] parts) = parts.
Proof.
  intros Hne Hall. induction Hall as [|p ps Hp Hps IH]; [congruence|].
  destruct ps as [|q qs].
  - apply py_split_single, Hp.
  - change (py_split sep (p ++ [sep] ++ py_join [sep] (q :: qs)) = p :: q :: qs).
    cbn [app]. rewrite py_split_app by exact Hp. f_equal. apply IH. discriminate.
Qed.

Lemma py_split1_app sep p r : sep ∉ p -> py_split1 sep (p ++ sep :: r) = [p; r].
Proof.
  induction p as [|a p IH]; intros Hn; cbn [app py_split1].
  - now rewrite decide_True.
  - rewrite decide_False by (intros ->; apply Hn; left).
    rewrite IH by (intros Hin; apply Hn; now right). reflexivity.
Qed.

Lemma py_str_no_comma z : ch "," ∉ py_str z.
Proof.
  intros Hin. pose proof (py_str_chars z) as H. rewrite Forall_forall in H.
  destruct (H _ Hin) as [Hd|Hd]; discriminate.
Qed.

Lemma traverse_py_int l : traverse_opt py_int (map py_str l) = Some l.
Proof.
  induction l as [|z l IH]; [reflexivity|].
  cbn [map traverse_opt]. rewrite py_int_py_str. simpl. now rewrite IH.
Qed.

Lemma lstrip_py_str z : lstrip (py_str z) = py_str z.
Proof. apply lstrip_all_nonspace, py_str_nonspace. Qed.

Lemma rstrip_py_str z : rstrip (py_str z) = py_str z.
Proof. apply rstrip_all_nonspace, py_str_nonspace. Qed.

Lemma strip_pad w1 s w2 :
  spaces w1 -> spaces w2 -> s <> [] -> lstrip s = s -> rstrip s = s ->
  py_strip (w1 ++ s ++ w2) = s.
Proof.
  intros H1 H2 Hne Hl Hr. unfold py_strip.
  rewrite lstrip_spaces by exact H1. rewrite lstrip_app by congruence. rewrite Hl.
  rewrite rstrip_spaces by exact H2. exact Hr.
Qed.

Lemma spaces_no_comma w : spaces w -> ch "," ∉ w.
Proof.
  unfold spaces. intros H Hin. rewrite Forall_forall in H. specialize (H _ Hin). discriminate.
Qed.

Lemma filter_strip_py_str l :
  map py_strip (List.filter (fun p => negb (bool_decide (py_strip p = []))) (map py_str l)) = map py_str l.
Proof.
  induction l as [|z l IH]; [reflexivity|].
  cbn [map List.filter]. rewrite strip_py_str, bool_decide_eq_false_2 by apply py_str_not_nil.
  cbn [negb map]. now rewrite strip_py_str, IH.
Qed.

Lemma parse_int_list_py_join l : _parse_int_list (py_join (lit ",") (map py_str l)) = Some l.
Proof.
  destruct l as [|z l]; [reflexivity|].
  unfold _parse_int_list. change (lit ",") with [ch ","].
  rewrite py_split_join.
  - rewrite filter_strip_py_str. apply traverse_py_int.
  - discriminate.
  - apply Forall_forall. intros p Hp. apply list_elem_of_fmap in Hp as (x & -> & _).
    apply py_str_no_comma.
Qed.

(** X11: [_parse_int_list] reads back what [save_config] writes for [BOARD]: parsing the comma-joined [str] of every integer of a list gives the list back. *)
Lemma parse_int_list_join l : _parse_int_list (py_join (lit ",") (map py_str l)) = Some l.
Proof. apply parse_int_list_py_join. Qed.

(** X12: [_parse_move_input] accepts [row,col] written in 1-based decimal with any whitespace around the numbers and the comma, and returns the 0-based position. *)
Lemma parse_move_padded r c w1 w2 w3 w4 :
  spaces w1 -> spaces w2 -> spaces w3 -> spaces w4 ->
  _parse_move_input (w1 ++ py_str (r + 1) ++ w2 ++ lit "," ++ w3 ++ py_str (c + 1) ++ w4) = Some (r, c).
Proof.
  intros H1 H2 H3 H4. unfold _parse_move_input.
  set (Y := py_str (r + 1) ++ w2 ++ lit "," ++ w3 ++ py_str (c + 1)).
  replace (w1 ++ py_str (r + 1) ++ w2 ++ lit "," ++ w3 ++ py_str (c + 1) ++ w4) with (w1 ++ Y ++ w4)
    by (unfold Y; now rewrite !app_assoc).
  rewrite strip_pad; [| exact H1 | exact H4 | | |].
  - unfold Y. change (lit ",") with [ch ","]. cbn [app].
    rewrite app_assoc, py_split_app.
    + rewrite py_split_single.
      * assert (Ha : py_strip (py_str (r + 1) ++ w2) = py_str (r + 1)).
        { apply (strip_pad [] _ w2); first [constructor | assumption | apply py_str_not_nil
            | apply lstrip_py_str | apply rstrip_py_str]. }
        assert (Hb : py_strip (w3 ++ py_str (c + 1)) = py_str (c + 1)).
        { pose proof (strip_pad w3 (py_str (c + 1)) [] H3 ltac:(constructor) (py_str_not_nil _)
            (lstrip_py_str _) (rstrip_py_str _)) as Hb.
          now rewrite app_nil_r in Hb. }
        rewrite Ha, Hb, !py_int_py_str. repeat f_equal; lia.
      * intros Hin. apply elem_of_app in Hin as [Hin|Hin]; [exact (spaces_no_comma _ H3 Hin)|].
        exact (py_str_no_comma _ Hin).
    + intros Hin. apply elem_of_app in Hin as [Hin|Hin]; [exact (py_str_no_comma _ Hin)|].
      exact (spaces_no_comma _ H2 Hin).
  - unfold Y. destruct (py_str (r + 1)) eqn:E; [now apply py_str_not_nil in E|]. discriminate.
  - unfold Y. rewrite lstrip_app; rewrite lstrip_py_str; [reflexivity | apply py_str_not_nil].
  - unfold Y. rewrite !app_assoc. rewrite rstrip_app; rewrite rstrip_py_str; [reflexivity | apply py_str_not_nil].
Qed.

(** *** Reading back the lines of a written file *)

Lemma translate_no_cr s : CR ∉ s -> translate_newlines s = s.
Proof.
  induction s as [|a s IH]; intros Hn; [reflexivity|].
  cbn [translate_newlines]. rewrite decide_False by (intros ->; apply Hn; left).
  rewrite IH by (intros Hin; apply Hn; now right). reflexivity.
Qed.

Lemma split_lines_app l r : LF ∉ l -> split_lines (l ++ LF :: r) = (l ++ [LF]) :: split_lines r.
Proof.
  induction l as [|a l IH]; intros Hn; cbn [app split_lines].
  - now rewrite decide_True.
  - rewrite decide_False by (intros ->; apply Hn; left).
    rewrite IH by (intros Hin; apply Hn; now right). reflexivity.
Qed.

Lemma file_lines_join lines :
  lines <> [] -> Forall (fun l => (LF ∉ l) /\ (CR ∉ l)) lines ->
  file_lines (py_join [LF] lines ++ [LF]) = map (fun l => l ++ [LF]) lines.
Proof.
  intros Hne Hall. unfold file_lines. rewrite translate_no_cr.
  - induction Hall as [|l ls [HLF HCR] Hls IH]; [congruence|].
    destruct ls as [|l' ls].
    + cbn [py_join]. rewrite split_lines_app by exact HLF. reflexivity.
    + change (py_join [LF] (l :: l' :: ls)) with (l ++ [LF] ++ py_join [LF] (l' :: ls)).
      rewrite <- !app_assoc. cbn [app]. rewrite split_lines_app by exact HLF.
      cbn [map]. f_equal. apply IH. discriminate.
  - clear Hne. induction Hall as [|l ls [HLF HCR] Hls IH].
    + intros Hin. apply list_elem_of_singleton in Hin. discriminate.
    + destruct ls as [|l' ls].
      * cbn [py_join]. intros Hin. apply elem_of_app in Hin as [Hin|Hin]; [exact (HCR Hin)|].
        apply list_elem_of_singleton in Hin. discriminate.
      * change (py_join [LF] (l :: l' :: ls)) with (l ++ [LF] ++ py_join [LF] (l' :: ls)).
        rewrite <- !app_assoc. intros Hin. apply elem_of_app in Hin as [Hin|Hin]; [exact (HCR Hin)|].
        apply elem_of_cons in Hin as [Hin|Hin]; [discriminate|exact (IH Hin)].
Qed.

Lemma lstrip_nil_app x y : lstrip x = [] -> lstrip (x ++ y) = lstrip y.
Proof.
  induction x as [|a x IH]; simpl; [reflexivity|].
  destruct (py_isspace a); [exact IH|discriminate].
Qed.

Lemma strip_line_end l : py_strip (l ++ [LF]) = py_strip l.
Proof.
  unfold py_strip. destruct (lstrip l) eqn:E.
  - rewrite lstrip_nil_app by exact E. reflexivity.
  - rewrite lstrip_app by congruence. rewrite E.
    apply (rstrip_spaces _ [LF]). repeat constructor.
Qed.

Lemma config_entry_line_end l : config_entry (l ++ [LF]) = config_entry l.
Proof. unfold config_entry. now rewrite strip_line_end. Qed.

Lemma load_lines_app v l1 l2 :
  load_lines v (l1 ++ l2) = (v' ← load_lines v l1; load_lines v' l2).
Proof.
  revert v. induction l1 as [|raw l1 IH]; intros v; [reflexivity|].
  cbn [app load_lines]. destruct (config_entry raw) as [[key value]|]; [|apply IH].
  destruct (load_kv v (py_upper key) value); [apply IH|reflexivity].
Qed.

Lemma load_lines_line_end v lines :
  load_lines v (map (fun l => l ++ [LF]) lines) = load_lines v lines.
Proof.
  revert v. induction lines as [|l ls IH]; intros v; [reflexivity|].
  cbn [map load_lines]. rewrite config_entry_line_end.
  destruct (config_entry l) as [[key value]|]; [|apply IH].
  destruct (load_kv v (py_upper key) value); [apply IH|reflexivity].
Qed.

Lemma state_lines_app st l1 l2 : state_lines st (l1 ++ l2) = state_lines (state_lines st l1) l2.
Proof.
  revert st. induction l1 as [|raw l1 IH]; intros st; [reflexivity|].
  cbn [app state_lines]. destruct (config_entry raw) as [[key value]|]; apply IH.
Qed.

Lemma state_lines_line_end st lines :
  state_lines st (map (fun l => l ++ [LF]) lines) = state_lines st lines.
Proof.
  revert st. induction lines as [|l ls IH]; intros st; [reflexivity|].
  cbn [map state_lines]. rewrite config_entry_line_end.
  destruct (config_entry l) as [[key value]|]; apply IH.
Qed.

Lemma config_entry_kv k v :
  key_ok k = true -> py_strip v = v -> config_entry ((k ++ [ch "="]) ++ v) = Some (k, v).
Proof.
  intros Hk Hv. unfold key_ok in Hk. apply andb_true_iff in Hk as [Hhd Hall].
  rewrite forallb_forall in Hall.
  assert (Hns : Forall nonspace k).
  { apply List.Forall_forall. intros a Ha. specialize (Hall a Ha).
    apply andb_true_iff in Hall as [H _]. unfold nonspace. now destruct (py_isspace a). }
  assert (Hneq : ch "=" ∉ k).
  { intros Hin. apply list_elem_of_In in Hin. specialize (Hall _ Hin).
    apply andb_true_iff in Hall as [_ H]. now rewrite bool_decide_eq_true_2 in H. }
  assert (Hkeq : Forall nonspace (k ++ [ch "="])) by (apply Forall_app; split; [exact Hns|repeat constructor]).
  destruct k as [|a k']; [discriminate|].
  change ((a :: k') ++ [ch "="]) with (a :: k' ++ [ch "="]) in Hkeq.
  assert (Hline : py_strip ((a :: k' ++ [ch "="]) ++ v) = (a :: k' ++ [ch "="]) ++ v).
  { unfold py_strip. rewrite lstrip_app.
    - rewrite (lstrip_all_nonspace _ Hkeq). destruct v as [|b v'].
      + rewrite app_nil_r. apply rstrip_all_nonspace, Hkeq.
      + apply stripped_parts in Hv as [_ Hr]. rewrite rstrip_app by (rewrite Hr; discriminate).
        now rewrite Hr.
    - rewrite (lstrip_all_nonspace _ Hkeq). discriminate. }
  unfold config_entry. change ((a :: k') ++ [ch "="]) with (a :: k' ++ [ch "="]). rewrite Hline.
  rewrite bool_decide_eq_false_2 by discriminate. cbn [orb].
  replace (py_startswith (lit "#") ((a :: k' ++ [ch "="]) ++ v)) with false.
  2:{ unfold py_startswith. cbn. symmetry. apply bool_decide_eq_false_2. intros [= Ha].
      rewrite Ha in Hhd. discriminate. }
  replace (py_contains (ch "=") ((a :: k' ++ [ch "="]) ++ v)) with true.
  2:{ symmetry. apply bool_decide_eq_true_2. apply elem_of_app. left.
      apply elem_of_cons. right. apply elem_of_app. right. now apply list_elem_of_singleton. }
  cbn [orb negb].
  replace ((a :: k' ++ [ch "="]) ++ v) with ((a :: k') ++ ch "=" :: v)
    by (cbn [app]; now rewrite <- app_assoc).
  rewrite py_split1_app by exact Hneq. cbn [map]. rewrite Hv, strip_all_nonspace by exact Hns.
  reflexivity.
Qed.

Lemma load_lines_kv v k value rest :
  key_ok k = true -> py_strip value = value ->
  load_lines v (((k ++ [ch "="]) ++ value) :: rest) = (v' ← load_kv v (py_upper k) value; load_lines v' rest).
Proof. intros Hk Hv. cbn [load_lines]. now rewrite config_entry_kv. Qed.

Lemma state_lines_kv st k value rest :
  key_ok k = true -> py_strip value = value ->
  state_lines st (((k ++ [ch "="]) ++ value) :: rest) = state_lines (state_kv st (py_upper k) value) rest.
Proof. intros Hk Hv. cbn [state_lines]. now rewrite config_entry_kv. Qed.

Lemma py_str_no_lf z : LF ∉ py_str z.
Proof.
  intros Hin. pose proof (py_str_nonspace z) as H. rewrite Forall_forall in H.
  specialize (H _ Hin). discriminate.
Qed.

Lemma py_str_no_cr z : CR ∉ py_str z.
Proof.
  intros Hin. pose proof (py_str_nonspace z) as H. rewrite Forall_forall in H.
  specialize (H _ Hin). discriminate.
Qed.

Lemma join_py_str_no_lf_cr l : (LF ∉ py_join (lit ",") (map py_str l)) /\ (CR ∉ py_join (lit ",") (map py_str l)).
Proof.
  induction l as [|z l [IH1 IH2]]; [split; intros Hin; inversion Hin|].
  destruct l as [|z' l].
  - split; [apply py_str_no_lf|apply py_str_no_cr].
  - change (py_join (lit ",") (map py_str (z :: z' :: l)))
      with (py_str z ++ lit "," ++ py_join (lit ",") (map py_str (z' :: l))).
    split; intros Hin; apply elem_of_app in Hin as [Hin|Hin];
      try (apply elem_of_app in Hin as [Hin|Hin]);
      first [exact (py_str_no_lf _ Hin) | exact (py_str_no_cr _ Hin) | now apply IH1 | now apply IH2
            | (apply list_elem_of_singleton in Hin; discriminate)].
Qed.

Lemma no_lf_cr_app x y :
  (LF ∉ x) /\ (CR ∉ x) -> (LF ∉ y) /\ (CR ∉ y) -> (LF ∉ x ++ y) /\ (CR ∉ x ++ y).
Proof.
  intros [Hx1 Hx2] [Hy1 Hy2]. split; intros Hin; apply elem_of_app in Hin as [Hin|Hin]; auto.
Qed.

Section LoadKeys.
Variables (size : option Z) (mode a b : option str) (seed : option Z)
  (preset : option (list Z)) (start : str) (source : option str) (value : str).

Lemma load_kv_SIZE : load_kv (mkLoadVars size mode a b seed preset start source) (lit "SIZE") value =
  (n ← py_int value; Some (mkLoadVars (Some n) mode a b seed preset start source)).
Proof. reflexivity. Qed.

Lemma load_kv_MODE : load_kv (mkLoadVars size mode a b seed preset start source) (lit "MODE") value =
  Some (mkLoadVars size (Some value) a b seed preset start source).
Proof. reflexivity. Qed.

Lemma load_kv_A_STRATEGY : load_kv (mkLoadVars size mode a b seed preset start source) (lit "A_STRATEGY") value =
  Some (mkLoadVars size mode (Some value) b seed preset start source).
Proof. reflexivity. Qed.

Lemma load_kv_B_STRATEGY : load_kv (mkLoadVars size mode a b seed preset start source) (lit "B_STRATEGY") value =
  Some (mkLoadVars size mode a (Some value) seed preset start source).
Proof. reflexivity. Qed.

Lemma load_kv_SEED : load_kv (mkLoadVars size mode a b seed preset start source) (lit "SEED") value =
  (n ← py_int value; Some (mkLoadVars size mode a b (Some n) preset start source)).
Proof. reflexivity. Qed.

Lemma load_kv_BOARD : load_kv (mkLoadVars size mode a b seed preset start source) (lit "BOARD") value =
  (l ← _parse_int_list value; Some (mkLoadVars size mode a b seed (Some l) start source)).
Proof. reflexivity. Qed.

Lemma load_kv_START_PLAYER : load_kv (mkLoadVars size mode a b seed preset start source) (lit "START_PLAYER") value =
  Some (mkLoadVars size mode a b seed preset
          (py_upper (py_strip (if bool_decide (value = []) then lit "A" else value))) source).
Proof. reflexivity. Qed.

Lemma load_kv_BOARD_SOURCE : load_kv (mkLoadVars size mode a b seed preset start source) (lit "BOARD_SOURCE") value =
  Some (mkLoadVars size mode a b seed preset start (Some (py_upper (py_strip value)))).
Proof. reflexivity. Qed.

End LoadKeys.

Section StateKeys.
Variables (src : str) (seed : option Z) (preset : option (list Z)) (value : str).

Lemma state_kv_other k :
  k ∈ [lit "SIZE"; lit "MODE"; lit "START_PLAYER"; lit "A_STRATEGY"; lit "B_STRATEGY"] ->
  state_kv (mkPresetState src seed preset) k value = mkPresetState src seed preset.
Proof. intros Hk. repeat (apply elem_of_cons in Hk as [->|Hk]; [reflexivity|]). inversion Hk. Qed.

Lemma state_kv_BOARD_SOURCE : state_kv (mkPresetState src seed preset) (lit "BOARD_SOURCE") value =
  mkPresetState (py_upper (py_strip value)) seed preset.
Proof. reflexivity. Qed.

Lemma state_kv_SEED : state_kv (mkPresetState src seed preset) (lit "SEED") value = mkPresetState src (py_int (py_strip value)) preset.
Proof. reflexivity. Qed.

Lemma state_kv_BOARD : state_kv (mkPresetState src seed preset) (lit "BOARD") value = mkPresetState src seed (_parse_int_list value).
Proof. reflexivity. Qed.

End StateKeys.

Lemma join_py_str_nonspace l : Forall nonspace (py_join (lit ",") (map py_str l)).
Proof.
  induction l as [|z l IH]; [constructor|].
  destruct l as [|z' l]; [apply py_str_nonspace|].
  change (py_join (lit ",") (map py_str (z :: z' :: l)))
    with (py_str z ++ lit "," ++ py_join (lit ",") (map py_str (z' :: l))).
  apply Forall_app; split; [apply py_str_nonspace|].
  apply Forall_app; split; [repeat constructor|exact IH].
Qed.

Lemma strip_join_py_str l : py_strip (py_join (lit ",") (map py_str l)) = py_join (lit ",") (map py_str l).
Proof. apply strip_all_nonspace, join_py_str_nonspace. Qed.

Lemma text_field_no_lf_cr s : text_field s -> (LF ∉ s) /\ (CR ∉ s).
Proof. intros (_ & _ & H1 & H2). now split. Qed.

Ltac no_lf_cr :=
  first [ apply no_lf_cr_app; no_lf_cr
        | split; [apply py_str_no_lf | apply py_str_no_cr]
        | apply join_py_str_no_lf_cr
        | apply text_field_no_lf_cr; assumption
        | split; apply (bool_decide_unpack _); vm_compute; exact I ].

Ltac kv_line keq key :=
  change (keq ++ ?x) with ((key ++ [ch "="]) ++ x);
  rewrite load_lines_kv by first [reflexivity | apply strip_py_str | apply strip_join_py_str | assumption];
  change (py_upper key) with key.

Lemma save_config_file_lines config src seed_raw preset_raw :
  text_field (cfg_mode config) ->
  opt_text_field (cfg_a_strategy config) -> opt_text_field (cfg_b_strategy config) ->
  cfg_start_player config = lit "A" \/ cfg_start_player config = lit "B" ->
  src = lit "RANDOM" \/ src = lit "MANUAL" ->
  file_lines (save_config_text config src seed_raw preset_raw) =
  map (fun l => l ++ [LF]) (save_config_lines config src seed_raw preset_raw).
Proof.
  destruct config as [size mode a b seed preset start]; cbn [cfg_size cfg_mode cfg_a_strategy
    cfg_b_strategy cfg_start_player].
  intros Hmode Ha Hb Hstart Hsrc. unfold save_config_text. apply file_lines_join.
  - discriminate.
  - unfold save_config_lines. cbn [cfg_size cfg_mode cfg_a_strategy cfg_b_strategy cfg_start_player].
    apply Forall_app; split.
    + destruct Hsrc as [-> | ->], Hstart as [-> | ->];
        repeat (apply List.Forall_cons; [no_lf_cr|]); apply List.Forall_nil.
    + repeat (apply Forall_app; split);
        [destruct a as [[|x xs]|] | destruct b as [[|y ys]|] | destruct seed_raw
        | destruct preset_raw as [[|p ps]|]]; cbn [opt_text_field] in Ha, Hb;
        repeat (apply List.Forall_cons; [no_lf_cr|]); apply List.Forall_nil.
Qed.

(** X13: [load_config] on the file written by [save_config] gives back the saved size, mode, strategies and start player, and under [MANUAL] the saved non-empty preset with no seed, under [RANDOM] the saved seed with no preset (for ASCII mode and strategy names without surrounding whitespace or line breaks). *)
Lemma save_load_roundtrip config src seed_raw preset_raw :
  text_field (cfg_mode config) ->
  opt_text_field (cfg_a_strategy config) -> opt_text_field (cfg_b_strategy config) ->
  cfg_start_player config = lit "A" \/ cfg_start_player config = lit "B" ->
  src = lit "RANDOM" \/ src = lit "MANUAL" ->
  load_config (save_config_text config src seed_raw preset_raw) =
  Some (mkConfig (cfg_size config) (cfg_mode config)
          (nonempty_opt (cfg_a_strategy config)) (nonempty_opt (cfg_b_strategy config))
          (if bool_decide (src = lit "MANUAL") then None else seed_raw)
          (if bool_decide (src = lit "MANUAL") then nonempty_opt preset_raw else None)
          (cfg_start_player config)).
Proof.
  intros Hmode Ha Hb Hstart Hsrc. unfold load_config.
  rewrite save_config_file_lines by assumption.
  destruct config as [size mode a b seed preset start]; cbn [cfg_size cfg_mode cfg_a_strategy
    cfg_b_strategy cfg_start_player] in *.
  unfold save_config_lines. cbn [cfg_size cfg_mode cfg_a_strategy cfg_b_strategy cfg_start_player].
  rewrite load_lines_line_end, load_lines_app. cbn [app].
  match goal with |- context [load_lines ?v (?c1 :: ?c2 :: ?c3 :: ?c4 :: ?rest)] =>
    change (load_lines v (c1 :: c2 :: c3 :: c4 :: rest)) with (load_lines v rest) end.
  destruct Hmode as (Hm1 & Hm2 & Hm3 & Hm4).
  kv_line (lit "SIZE=") (lit "SIZE"). unfold load_init.
  rewrite load_kv_SIZE, py_int_py_str. cbn [mbind option_bind].
  kv_line (lit "MODE=") (lit "MODE"). rewrite load_kv_MODE. cbn [mbind option_bind].
  assert (Hst : py_strip start = start) by (destruct Hstart as [-> | ->]; reflexivity).
  assert (Hsr : py_strip src = src) by (destruct Hsrc as [-> | ->]; reflexivity).
  kv_line (lit "START_PLAYER=") (lit "START_PLAYER"). rewrite load_kv_START_PLAYER. cbn [mbind option_bind].
  kv_line (lit "BOARD_SOURCE=") (lit "BOARD_SOURCE"). rewrite load_kv_BOARD_SOURCE.
  cbn [mbind option_bind load_lines].
  replace (py_upper (py_strip (if bool_decide (start = []) then lit "A" else start))) with start
    by (destruct Hstart as [-> | ->]; reflexivity).
  replace (py_upper (py_strip src)) with src by (destruct Hsrc as [-> | ->]; reflexivity).
  rewrite load_lines_app.
  destruct a as [[|x xs]|];
    [| destruct Ha as (_ & Hx & _); kv_line (lit "A_STRATEGY=") (lit "A_STRATEGY");
       rewrite load_kv_A_STRATEGY |];
    cbn [load_lines mbind option_bind];
  (rewrite load_lines_app; destruct b as [[|y ys]|];
    [| destruct Hb as (_ & Hy & _); kv_line (lit "B_STRATEGY=") (lit "B_STRATEGY");
       rewrite load_kv_B_STRATEGY |];
    cbn [load_lines mbind option_bind]);
  (rewrite load_lines_app; destruct seed_raw as [sd|];
    [kv_line (lit "SEED=") (lit "SEED"); rewrite load_kv_SEED, py_int_py_str |];
    cbn [load_lines mbind option_bind]);
  (destruct preset_raw as [[|p ps]|];
    [| kv_line (lit "BOARD=") (lit "BOARD"); rewrite load_kv_BOARD, parse_int_list_py_join |];
    cbn [load_lines mbind option_bind]).
  all: destruct Hsrc as [-> | ->]; destruct Hstart as [-> | ->]; reflexivity.
Qed.

Ltac st_line keq key :=
  change (keq ++ ?x) with ((key ++ [ch "="]) ++ x);
  rewrite state_lines_kv by first [reflexivity | apply strip_py_str | apply strip_join_py_str | assumption];
  change (py_upper key) with key.

(** X14: The raw-state reader of [main] ('Adjust Config') reads back from the file written by [save_config] the saved board source, raw seed and non-empty raw preset, under the same conditions. *)
Lemma save_read_state_roundtrip config src seed_raw preset_raw :
  text_field (cfg_mode config) ->
  opt_text_field (cfg_a_strategy config) -> opt_text_field (cfg_b_strategy config) ->
  cfg_start_player config = lit "A" \/ cfg_start_player config = lit "B" ->
  src = lit "RANDOM" \/ src = lit "MANUAL" ->
  read_state (save_config_text config src seed_raw preset_raw) =
  mkPresetState src seed_raw (nonempty_opt preset_raw).
Proof.
  intros Hmode Ha Hb Hstart Hsrc. unfold read_state.
  rewrite save_config_file_lines by assumption.
  destruct config as [size mode a b seed preset start]; cbn [cfg_size cfg_mode cfg_a_strategy
    cfg_b_strategy cfg_start_player] in *.
  unfold save_config_lines. cbn [cfg_size cfg_mode cfg_a_strategy cfg_b_strategy cfg_start_player].
  rewrite state_lines_line_end, state_lines_app. cbn [app].
  match goal with |- context [state_lines ?v (?c1 :: ?c2 :: ?c3 :: ?c4 :: ?rest)] =>
    change (state_lines v (c1 :: c2 :: c3 :: c4 :: rest)) with (state_lines v rest) end.
  destruct Hmode as (Hm1 & Hm2 & Hm3 & Hm4).
  assert (Hst : py_strip start = start) by (destruct Hstart as [-> | ->]; reflexivity).
  assert (Hsr : py_strip src = src) by (destruct Hsrc as [-> | ->]; reflexivity).
  unfold state_init.
  st_line (lit "SIZE=") (lit "SIZE"). rewrite state_kv_other by (repeat constructor).
  st_line (lit "MODE=") (lit "MODE"). rewrite state_kv_other by (repeat constructor).
  st_line (lit "START_PLAYER=") (lit "START_PLAYER"). rewrite state_kv_other by (repeat constructor).
  st_line (lit "BOARD_SOURCE=") (lit "BOARD_SOURCE"). rewrite state_kv_BOARD_SOURCE.
  replace (py_upper (py_strip src)) with src by (destruct Hsrc as [-> | ->]; reflexivity).
  cbn [state_lines].
  rewrite state_lines_app.
  destruct a as [[|x xs]|];
    [| destruct Ha as (_ & Hx & _); st_line (lit "A_STRATEGY=") (lit "A_STRATEGY");
       rewrite state_kv_other by (repeat constructor) |];
    cbn [state_lines];
  (rewrite state_lines_app; destruct b as [[|y ys]|];
    [| destruct Hb as (_ & Hy & _); st_line (lit "B_STRATEGY=") (lit "B_STRATEGY");
       rewrite state_kv_other by (repeat constructor) |];
    cbn [state_lines]);
  (rewrite state_lines_app; destruct seed_raw as [sd|];
    [st_line (lit "SEED=") (lit "SEED"); rewrite state_kv_SEED, strip_py_str, py_int_py_str |];
    cbn [state_lines]);
  (destruct preset_raw as [[|p ps]|];
    [| st_line (lit "BOARD=") (lit "BOARD"); rewrite state_kv_BOARD, parse_int_list_py_join |];
    cbn [state_lines]); reflexivity.
Qed.

Lemma upper_char_B a : upper_char a = ch "B" <-> a = ch "b" \/ a = ch "B".
Proof.
  assert (H : bool_decide (upper_char a = ch "B") = bool_decide (a = ch "b") || bool_decide (a = ch "B"))
    by (destruct a as [[] [] [] [] [] [] [] []]; vm_compute; reflexivity).
  split.
  - intros E. rewrite bool_decide_eq_true_2 in H by exact E. symmetry in H.
    apply orb_true_iff in H as [H|H]; apply bool_decide_eq_true_1 in H; auto.
  - intros E. apply (bool_decide_eq_true_1 (upper_char a = ch "B")). rewrite H. apply orb_true_iff.
    destruct E as [E|E]; [left|right]; now apply bool_decide_eq_true_2.
Qed.

Lemma py_upper_B s : py_upper s = lit "B" <-> s = lit "b" \/ s = lit "B".
Proof.
  split.
  - destruct s as [|a [|b s]]; try discriminate. intros [= E].
    change (upper_char a = ch "B") in E. apply upper_char_B in E as [-> | ->]; auto.
  - intros [-> | ->]; reflexivity.
Qed.

Lemma GameConfig_init_start size mode a b seed preset sp :
  cfg_start_player (GameConfig_init size mode a b seed preset sp) =
  (if bool_decide (py_upper sp = lit "B") then lit "B" else lit "A").
Proof.
  unfold GameConfig_init; cbn [cfg_start_player].
  destruct (decide (sp = [])) as [->|Hne].
  - reflexivity.
  - rewrite (bool_decide_eq_false_2 (sp = [])) by exact Hne.
    destruct (decide (py_upper sp = lit "A")) as [EA|NA].
    + rewrite EA. reflexivity.
    + rewrite (bool_decide_eq_false_2 (py_upper sp = lit "A")) by exact NA. cbn [orb].
      destruct (decide (py_upper sp = lit "B")) as [EB|NB].
      * rewrite !bool_decide_eq_true_2 by exact EB. exact EB.
      * rewrite !bool_decide_eq_false_2 by exact NB. reflexivity.
Qed.

(** X15: [GameConfig] always stores start player ['A'] or ['B']; it is ['B'] exactly when the given value is ['b'] or ['B']. *)
Theorem GameConfig_start_player size mode a b seed preset sp :
  let c := GameConfig_init size mode a b seed preset sp in
  (cfg_start_player c = lit "A" \/ cfg_start_player c = lit "B") /\
  (cfg_start_player c = lit "B" <-> sp = lit "b" \/ sp = lit "B").
Proof.
  cbv zeta. rewrite GameConfig_init_start. rewrite <- py_upper_B.
  destruct (decide (py_upper sp = lit "B")) as [E|N].
  - rewrite bool_decide_eq_true_2 by exact E. split; [now right|tauto].
  - rewrite bool_decide_eq_false_2 by exact N. split; [auto|]. split; [discriminate|contradiction].
Qed.

(** X16: A configuration returned by [load_config] never carries both a seed and a preset board, and its start player is ['A'] or ['B']. *)
Theorem load_config_shape content cfg :
  load_config content = Some cfg ->
  (cfg_seed cfg = None \/ cfg_preset_board cfg = None) /\
  (cfg_start_player cfg = lit "A" \/ cfg_start_player cfg = lit "B").
Proof.
  unfold load_config. destruct (load_lines load_init (file_lines content)) as [v|]; [|discriminate].
  cbn [mbind option_bind]. destruct (lv_size v) as [size|]; [|discriminate].
  match goal with |- context [if bool_decide (?src = lit "MANUAL") then _ else _] =>
    destruct (bool_decide (src = lit "MANUAL")) end;
  intros [= <-]; (split; [cbn; auto|]);
  rewrite GameConfig_init_start; case_bool_decide; auto.
Qed.

(** *** Strategy names *)

Lemma registry_lookup_In name reg s : registry_lookup name reg = Some s -> In (name, s) reg.
Proof.
  induction reg as [|[k s'] reg IH]; cbn [registry_lookup]; [discriminate|].
  case_bool_decide as Hk; [intros [= <-]; subst k; now left|]. intros H; right; now apply IH.
Qed.

Lemma get_strategy_name name s : get_strategy name = Ok s -> name = strategy_name s.
Proof.
  unfold get_strategy. destruct (registry_lookup name STRATEGY_REGISTRY) as [s'|] eqn:E;
    intros H; inversion H; subst s'.
  apply registry_lookup_In in E. unfold STRATEGY_REGISTRY in E.
  repeat (destruct E as [E|E]; [injection E as <- <-; reflexivity|]). destruct E.
Qed.

Lemma get_strategy_of_name s : get_strategy (strategy_name s) = Ok s.
Proof. destruct s; reflexivity. Qed.

(** X17: Whenever the strategy submenu sets a strategy name, the name is a key of [STRATEGY_REGISTRY]: [get_strategy] succeeds on it and returns the strategy registered under that name. *)
Theorem strategy_submenu_registered typed name :
  strategy_submenu_step typed = SetAttr (Some name) ->
  exists s, get_strategy name = Ok s /\ strategy_name s = name.
Proof.
  unfold strategy_submenu_step. destruct (guarded_input typed) as [| | |t]; try discriminate.
  cbv zeta. case_bool_decide as H1.
  - repeat (apply elem_of_cons in H1 as [H1|H1];
      [rewrite H1; vm_compute; first [discriminate | intros [= <-]; eexists; split; reflexivity]|]).
    inversion H1.
  - case_bool_decide as H2; [discriminate|].
    case_bool_decide as H3; [|discriminate]. intros [= <-].
    unfold STRATS in H3.
    repeat (apply elem_of_cons in H3 as [H3|H3]; [rewrite H3; eexists; split; reflexivity|]).
    inversion H3.
Qed.

Lemma registered_truthy n : registered (Some n) -> exists s, n = strategy_name s /\ get_strategy n = Ok s.
Proof.
  intros H. destruct (H n eq_refl) as [s Hs]. exists s. split; [now apply get_strategy_name|exact Hs].
Qed.

(** X18: For a configuration that passes the save validation of [show_config_menu] with registered strategy names, [start_game] builds both controllers, except in [H_VS_C] mode with B unset (A computer, B human), which is saved but rejected by [start_game] with [ValueError]. *)
Theorem save_validation_start_game mode a b :
  save_validation mode a b = true -> registered a -> registered b ->
  (py_upper mode = lit "H_VS_C" /\ b = None -> start_game_controllers mode a b = Exc ValueError) /\
  (~ (py_upper mode = lit "H_VS_C" /\ b = None) ->
   exists ctrl_A ctrl_B, start_game_controllers mode a b = Ok (ctrl_A, ctrl_B)).
Proof.
  unfold save_validation, start_game_controllers.
  set (m := py_upper mode). intros Hv Ha Hb.
  destruct (decide (m = lit "H_VS_H")) as [E1|N1].
  { rewrite bool_decide_eq_true_2 in Hv by exact E1.
    destruct a, b; cbn in Hv; try discriminate Hv.
    split; [intros [E _]; rewrite E1 in E; discriminate|].
    intros _. rewrite E1. eexists _, _; reflexivity. }
  rewrite bool_decide_eq_false_2 in Hv by exact N1.
  destruct (decide (m = lit "H_VS_C")) as [E2|N2].
  { rewrite bool_decide_eq_true_2 in Hv by exact E2.
    destruct a as [na|], b as [nb|]; cbn in Hv; try discriminate Hv.
    - split; [intros _; rewrite E2; reflexivity|].
      intros Hn; exfalso; apply Hn; split; [exact E2|reflexivity].
    - destruct (registered_truthy nb Hb) as (sb & -> & _).
      split; [intros [_ E]; discriminate|].
      intros _. rewrite E2. destruct sb; eexists _, _; reflexivity. }
  rewrite bool_decide_eq_false_2 in Hv by exact N2.
  destruct (decide (m = lit "C_VS_C")) as [E3|N3].
  { rewrite bool_decide_eq_true_2 in Hv by exact E3.
    destruct a as [na|], b as [nb|]; cbn in Hv; try discriminate Hv.
    destruct (registered_truthy na Ha) as (sa & -> & _).
    destruct (registered_truthy nb Hb) as (sb & -> & _).
    split; [intros [E _]; rewrite E3 in E; discriminate|].
    intros _. rewrite E3. destruct sa, sb; eexists _, _; reflexivity. }
  rewrite bool_decide_eq_false_2 in Hv by exact N3. discriminate Hv.
Qed.

Lemma mapM_ok_list {A B} (f : A -> M B) (g : A -> B) l b :
  (forall x, In x l -> f x b = (Ok (g x), b)) -> mapM f l b = (Ok (map g l), b).
Proof.
  induction l as [|x l IH]; intros Hf; [reflexivity|].
  simpl. unfold bindM. rewrite Hf by (left; reflexivity).
  rewrite IH by (intros; apply Hf; right; assumption). reflexivity.
Qed.

Lemma print_board_ok b : wf b ->
  print_board b =
  (Ok (map (fun r => py_join (lit " ") (map (fun c => render b r c) (range (size b)))) (range (size b))), b).
Proof.
  intros Hwf. unfold print_board, bindM at 1, get_board.
  apply mapM_ok_list. intros r Hr. apply range_In in Hr.
  unfold bindM at 1. rewrite (mapM_ok_list _ (fun c => render b r c)); [reflexivity|].
  intros c Hc. apply range_In in Hc. unfold bindM.
  rewrite get_cell_ok by (exact Hwf || (apply in_bounds_iff; lia)). reflexivity.
Qed.

Lemma count_char_app a s t : count_char a (s ++ t) = (count_char a s + count_char a t)%nat.
Proof. unfold count_char. now rewrite List.filter_app, length_app. Qed.

Lemma count_char_join a sep parts :
  count_char a sep = 0%nat -> count_char a (py_join sep parts) = list_sum (map (count_char a) parts).
Proof.
  intros Hsep. induction parts as [|p ps IH]; [reflexivity|].
  destruct ps as [|q qs]; [simpl; lia|].
  change (py_join sep (p :: q :: qs)) with (p ++ sep ++ py_join sep (q :: qs)).
  rewrite !count_char_app, Hsep, IH. reflexivity.
Qed.

Lemma count_char_concat a rows : count_char a (concat rows) = list_sum (map (count_char a) rows).
Proof.
  induction rows as [|r rows IH]; [reflexivity|]. simpl. now rewrite count_char_app, IH.
Qed.

Lemma count_X_py_str z : count_char (ch "X") (py_str z) = 0%nat.
Proof.
  unfold count_char. pose proof (py_str_chars z) as H.
  induction H as [|a s Ha _ IH]; [reflexivity|]. cbn [List.filter].
  rewrite bool_decide_eq_false_2; [exact IH|].
  intros ->. destruct Ha as [Ha|Ha]; discriminate.
Qed.

Lemma count_render b r c : count_char (ch "X") (render b r c) = marked b (r, c).
Proof.
  unfold render, marked. cbn [fst snd]. destruct (cell b r c) as [v|].
  - rewrite count_X_py_str. rewrite bool_decide_eq_false_2; [reflexivity|]. intros [? _]; discriminate.
  - destruct (decide (last_removed_pos b = Some (r, c))) as [E|N].
    + rewrite !bool_decide_eq_true_2 by tauto. reflexivity.
    + rewrite !bool_decide_eq_false_2 by tauto. reflexivity.
Qed.

Lemma list_sum_flat_map {A} (f : A -> nat) (g : Z -> list A) l :
  list_sum (map f (flat_map g l)) = list_sum (map (fun x => list_sum (map f (g x))) l).
Proof.
  induction l as [|x l IH]; [reflexivity|]. simpl. now rewrite map_app, list_sum_app, IH.
Qed.

Lemma list_sum_single {A} `{EqDecision A} (l : list A) (p : A) :
  List.NoDup l -> list_sum (map (fun q => if bool_decide (q = p) then 1%nat else 0%nat) l) =
                  (if bool_decide (p ∈ l) then 1%nat else 0%nat).
Proof.
  induction 1 as [|x l Hx Hl IH]; [reflexivity|]. cbn [map].
  change (list_sum (?h :: ?t)) with (h + list_sum t)%nat. rewrite IH.
  rewrite <- list_elem_of_In in Hx.
  destruct (decide (x = p)) as [->|N].
  - rewrite bool_decide_eq_true_2 by reflexivity. rewrite (bool_decide_eq_false_2 (p ∈ l)) by exact Hx.
    rewrite bool_decide_eq_true_2 by (apply elem_of_cons; now left). reflexivity.
  - rewrite bool_decide_eq_false_2 by exact N.
    destruct (decide (p ∈ l)) as [Hi|Hi].
    + rewrite !bool_decide_eq_true_2 by (try (apply elem_of_cons; right); exact Hi). reflexivity.
    + rewrite !bool_decide_eq_false_2; [reflexivity| |exact Hi].
      intros [E|E]%elem_of_cons; [exact (N (eq_sym E))|exact (Hi E)].
Qed.

(** X19: [print_board] prints [size] rows and leaves the board unchanged; it prints one [X] when [last_removed_pos] is an in-bounds emptied cell and none otherwise. *)
Theorem print_board_single_mark b :
  wf b ->
  exists rows, print_board b = (Ok rows, b) /\ length rows = Z.to_nat (size b) /\
    count_char (ch "X") (concat rows) =
    match last_removed_pos b with
    | Some p => if in_bounds b p && negb (present b p) then 1%nat else 0%nat
    | None => 0%nat
    end.
Proof.
  intros Hwf. eexists. split; [apply print_board_ok, Hwf|]. split.
  { rewrite length_map. unfold range. rewrite length_map, length_seq. reflexivity. }
  rewrite count_char_concat, map_map.
  erewrite map_ext.
  2:{ intros r. rewrite count_char_join by reflexivity. rewrite map_map.
      erewrite map_ext by (intros c; apply count_render). reflexivity. }
  transitivity (list_sum (map (marked b) (cells (size b)))).
  { unfold cells. rewrite list_sum_flat_map. f_equal. apply map_ext. intros r. now rewrite map_map. }
  assert (Hzero : forall l, (forall q, marked b q = 0%nat) -> list_sum (map (marked b) l) = 0%nat).
  { intros l Hq. induction l as [|q l IH]; [reflexivity|]. cbn [map].
    change (list_sum (?h :: ?t)) with (h + list_sum t)%nat. rewrite Hq, IH. reflexivity. }
  destruct (last_removed_pos b) as [p|] eqn:Hlast.
  - unfold present. destruct (decide (cell b p.1 p.2 = None)) as [Hn|Hn].
    + rewrite (bool_decide_eq_false_2 (cell b p.1 p.2 <> None)) by tauto. rewrite andb_true_r.
      erewrite map_ext.
      2:{ intros q. unfold marked. rewrite Hlast.
          instantiate (1 := fun q => if bool_decide (q = p) then 1%nat else 0%nat).
          destruct (decide (q = p)) as [->|N].
          - rewrite !bool_decide_eq_true_2 by tauto. reflexivity.
          - rewrite !bool_decide_eq_false_2 by (try intros [_ [= E]]; congruence). reflexivity. }
      rewrite list_sum_single by apply cells_NoDup.
      destruct p as [r c]. destruct (in_bounds b (r, c)) eqn:Hin.
      * apply in_bounds_iff in Hin. rewrite bool_decide_eq_true_2; [reflexivity|].
        apply list_elem_of_In, cells_In. exact Hin.
      * rewrite bool_decide_eq_false_2; [reflexivity|]. intros Hc.
        apply list_elem_of_In, cells_In in Hc. apply (proj2 (in_bounds_iff b r c)) in Hc. congruence.
    + rewrite (bool_decide_eq_true_2 (cell b p.1 p.2 <> None)) by exact Hn. rewrite andb_false_r.
      apply Hzero. intros q. unfold marked. rewrite Hlast. rewrite bool_decide_eq_false_2; [reflexivity|].
      intros [Hq [= ->]]. exact (Hn Hq).
  - apply Hzero. intros q. unfold marked. rewrite Hlast.
    rewrite bool_decide_eq_false_2; [reflexivity|]. intros [_ E]. discriminate.
Qed.

(** X20: When the board-size submenu sets a new size [n], then [n >= 2], the raw seed is kept, and the raw preset left in the state is empty or has exactly [n * n] values. *)
Theorem submenu_board_size_preset typed st n st' :
  submenu_board_size_step typed st = SizeSet n st' ->
  2 <= n /\
  (forall pb, st_preset_board_raw st' = Some pb -> pb = [] \/ Z.of_nat (length pb) = n * n) /\
  st_seed_raw st' = st_seed_raw st.
Proof.
  unfold submenu_board_size_step. destruct (guarded_input typed) as [| | |raw]; try discriminate.
  destruct (py_int (py_strip raw)) as [m|]; [|discriminate].
  destruct (Z.ltb_spec m 2) as [Hlt|Hge]; [discriminate|].
  destruct st as [src seed [[|x xs]|]]; cbn [st_preset_board_raw st_seed_raw].
  - intros [= <- <-]. cbn. split; [lia|]. split; [|reflexivity]. intros pb [= <-]. now left.
  - destruct (Z.eqb_spec (Z.of_nat (length (x :: xs))) (m * m)) as [E|N]; cbn [negb];
      intros [= <- <-]; cbn; (split; [lia|]); (split; [|reflexivity]); intros pb Hpb.
    + injection Hpb as <-. now right.
    + discriminate.
  - intros [= <- <-]. cbn. split; [lia|]. split; [discriminate|reflexivity].
Qed.

(** ** Witnesses: the theorems at concrete inputs *)

Lemma wf_example_after_opening : wf example_after_opening.
Proof. split; [reflexivity|repeat constructor]. Qed.

Lemma wf_example_board : wf example_board.
Proof. split; [reflexivity|repeat constructor]. Qed.

Lemma legal_set_spec_witness :
  wf example_after_opening /\
  legal_set (Some (0, 0)) example_after_opening =
    (Ok (legal_spec example_after_opening (Some (0, 0))), example_after_opening) /\
  (forall q, In q (legal_spec example_after_opening (Some (0, 0))) <->
     available example_after_opening q /\ (q.1 = 0 \/ q.2 = 0)) /\
  List.NoDup (legal_spec example_after_opening (Some (0, 0))).
Proof.
  split; [apply wf_example_after_opening|].
  apply (legal_set_spec example_after_opening (Some (0, 0))).
  - apply wf_example_after_opening.
  - intros p [= <-]. reflexivity.
Defined.

Lemma strategy_restores_board_witness :
  legal_set (Some (0, 0)) example_after_opening =
    (Ok [(0, 1); (0, 2); (1, 0); (2, 0)], example_after_opening) /\
  exists p, run_strategy PreserveHighValues (Some (0, 0)) example_after_opening =
              (Ok (Some p), example_after_opening).
Proof.
  split; [reflexivity|].
  apply (strategy_restores_board PreserveHighValues example_after_opening (Some (0, 0))
           [(0, 1); (0, 2); (1, 0); (2, 0)] example_after_opening).
  - apply wf_example_after_opening.
  - intros p [= <-]. reflexivity.
  - reflexivity.
  - discriminate.
Defined.

Lemma remove_and_get_spec_witness :
  wf example_board /\
  (~ available example_board (1, 1) ->
     remove_and_get (1, 1) example_board = (Exc ValueError, example_board)) /\
  (available example_board (1, 1) ->
     exists v b', cell example_board 1 1 = Some v /\
       remove_and_get (1, 1) example_board = (Ok v, b') /\
       wf b' /\ size b' = size example_board /\
       last_removed_pos b' = Some (1, 1) /\
       ~ available b' (1, 1) /\
       (forall q, in_bounds example_board q = true -> q <> (1, 1) ->
          cell b' q.1 q.2 = cell example_board q.1 q.2)).
Proof.
  split; [apply wf_example_board|].
  apply (remove_and_get_spec example_board (1, 1)). apply wf_example_board.
Defined.

Lemma maximize_future_min_choice_witness :
  legal_set (Some (0, 0)) example_after_opening =
    (Ok [(0, 1); (0, 2); (1, 0); (2, 0)], example_after_opening) /\
  exists p, strategy_maximize_future_min (Some (0, 0)) example_after_opening =
              (Ok (Some p), example_after_opening) /\
            first_argmax (future_min_key example_after_opening)
              [(0, 1); (0, 2); (1, 0); (2, 0)] p.
Proof.
  split; [reflexivity|].
  apply (maximize_future_min_choice example_after_opening (Some (0, 0))
           [(0, 1); (0, 2); (1, 0); (2, 0)] example_after_opening).
  - apply wf_example_after_opening.
  - intros p [= <-]. reflexivity.
  - reflexivity.
  - discriminate.
Defined.

Lemma high_value_preservation_choice_witness :
  legal_set (Some (0, 0)) example_after_opening =
    (Ok [(0, 1); (0, 2); (1, 0); (2, 0)], example_after_opening) /\
  exists global_max p,
    max_remaining_value example_after_opening = (Ok global_max, example_after_opening) /\
    strategy_high_value_preservation (Some (0, 0)) example_after_opening =
      (Ok (Some p), example_after_opening) /\
    first_argmax (high_value_key global_max example_after_opening)
      [(0, 1); (0, 2); (1, 0); (2, 0)] p.
Proof.
  split; [reflexivity|].
  apply (high_value_preservation_choice example_after_opening (Some (0, 0))
           [(0, 1); (0, 2); (1, 0); (2, 0)] example_after_opening).
  - apply wf_example_after_opening.
  - intros p [= <-]. reflexivity.
  - reflexivity.
  - discriminate.
Defined.

Lemma greedy_choice_witness :
  exists p i, strategy_greedy_maximize (Some (0, 0)) example_after_opening =
                (Ok (Some p), example_after_opening) /\
    [(0, 1); (0, 2); (1, 0); (2, 0)] !! i = Some p /\
    (forall j q, [(0, 1); (0, 2); (1, 0); (2, 0)] !! j = Some q ->
       value0 example_after_opening q <= value0 example_after_opening p) /\
    (forall j q, (j < i)%nat -> [(0, 1); (0, 2); (1, 0); (2, 0)] !! j = Some q ->
       value0 example_after_opening q < value0 example_after_opening p).
Proof.
  apply (proj1 greedy_choice example_after_opening (Some (0, 0))
           [(0, 1); (0, 2); (1, 0); (2, 0)] example_after_opening).
  - apply wf_example_after_opening.
  - intros p [= <-]. reflexivity.
  - reflexivity.
  - discriminate.
Defined.

Lemma game_terminates_witness :
  exists st, game_steps (Computer Greedy) (Computer MaximizeFutureMin) 1 example_start st /\
    Z.of_nat 1 <= size (gs_board example_start) * size (gs_board example_start) /\
    (terminated st \/ exists st', game_step (Computer Greedy) (Computer MaximizeFutureMin) st st').
Proof.
  eexists. assert (Hs : game_steps (Computer Greedy) (Computer MaximizeFutureMin) 1
                          example_start
                          (mkGame (removed_board example_board (2, 2)) (Some (2, 2)) PB 9 0 1)).
  { eapply steps_cons; [|apply steps_refl].
    eapply (step_move _ _ example_start (cells 3) example_board (2, 2) example_board 9).
    - reflexivity.
    - discriminate.
    - constructor. reflexivity.
    - reflexivity. }
  split; [exact Hs|].
  apply (game_terminates (Computer Greedy) (Computer MaximizeFutureMin) example_start _ 1).
  - apply wf_example_board.
  - reflexivity.
  - exact Hs.
Defined.

Lemma preset_stored_verbatim_witness :
  (1 <= 2 /\ Z.of_nat (length [0; -3; 10; 5]) = 2 * 2) /\
  exists bd, BoardManager_init unit_gen 2 None (Some [0; -3; 10; 5]) 0 = Ok bd /\ wf bd /\
    forall r c, 0 <= r < 2 -> 0 <= c < 2 ->
      get_value (r, c) bd = (Ok ([0; -3; 10; 5] !! Z.to_nat (r * 2 + c)), bd).
Proof.
  split; [split; [lia|reflexivity]|].
  apply (preset_stored_verbatim unit_gen 2 None [0; -3; 10; 5] 0); [lia|reflexivity].
Defined.

Lemma example_first_step :
  game_step (Computer Greedy) (Computer MaximizeFutureMin) example_start
    (mkGame (removed_board example_board (2, 2)) (Some (2, 2)) PB 9 0 1).
Proof.
  eapply (step_move _ _ example_start (cells 3) example_board (2, 2) example_board 9).
  - reflexivity.
  - discriminate.
  - constructor. reflexivity.
  - reflexivity.
Qed.

Lemma example_start_inv : game_inv example_start.
Proof. split; [apply wf_example_board | discriminate]. Qed.

Lemma any_available_spec_witness :
  wf example_board /\
  exists res avail, any_available example_board = (Ok res, example_board) /\
    get_all_available_positions example_board = (Ok avail, example_board) /\
    (res = true <-> avail <> []) /\
    (res = true <-> exists q, available example_board q).
Proof.
  split; [apply wf_example_board|].
  apply (any_available_spec example_board). apply wf_example_board.
Defined.

Lemma get_value_python_index_witness :
  wf example_board /\
  ((- size example_board <= -1 < size example_board /\ - size example_board <= 0 < size example_board) ->
     get_value (-1, 0) example_board =
       (Ok (cell example_board (-1 mod size example_board) (0 mod size example_board)), example_board)) /\
  (~ (- size example_board <= -1 < size example_board /\ - size example_board <= 0 < size example_board) ->
     get_value (-1, 0) example_board = (Exc IndexError, example_board)).
Proof.
  split; [apply wf_example_board|].
  apply (get_value_python_index example_board (-1) 0). apply wf_example_board.
Defined.

Lemma is_available_spec_witness :
  wf example_board /\
  is_available (1, 2) example_board = (Ok (bool_decide (available example_board (1, 2))), example_board).
Proof.
  split; [apply wf_example_board|].
  apply (is_available_spec example_board (1, 2)). apply wf_example_board.
Defined.

Lemma max_remaining_value_spec_witness :
  wf example_after_opening /\
  exists m, max_remaining_value example_after_opening = (Ok m, example_after_opening) /\ 0 <= m /\
    (forall q, available example_after_opening q -> value0 example_after_opening q <= m) /\
    ((exists q, available example_after_opening q /\ 0 <= value0 example_after_opening q) ->
       exists q, available example_after_opening q /\ value0 example_after_opening q = m) /\
    ((forall q, available example_after_opening q -> value0 example_after_opening q < 0) -> m = 0).
Proof.
  split; [apply wf_example_after_opening|].
  apply (max_remaining_value_spec example_after_opening). apply wf_example_after_opening.
Defined.

Lemma minimize_opponent_options_choice_witness :
  legal_set (Some (0, 0)) example_after_opening =
    (Ok [(0, 1); (0, 2); (1, 0); (2, 0)], example_after_opening) /\
  exists p, strategy_minimize_opponent_options (Some (0, 0)) example_after_opening =
              (Ok (Some p), example_after_opening) /\
    first_argmax (fun q => [- Z.of_nat (length (opp_replies example_after_opening q));
                            value0 example_after_opening q])
      [(0, 1); (0, 2); (1, 0); (2, 0)] p.
Proof.
  split; [reflexivity|].
  apply (minimize_opponent_options_choice example_after_opening (Some (0, 0))
           [(0, 1); (0, 2); (1, 0); (2, 0)] example_after_opening).
  - apply wf_example_after_opening.
  - intros p [= <-]. reflexivity.
  - reflexivity.
  - discriminate.
Defined.

Lemma strategy_outcome_witness :
  legal_set None example_board = (Ok (cells 3), example_board) /\
  example_board = example_board /\
  (cells 3 = [] -> run_strategy Greedy None example_board = (Exc ValueError, example_board)) /\
  (cells 3 <> [] -> exists p, run_strategy Greedy None example_board = (Ok (Some p), example_board) /\
                              In p (cells 3) /\ available example_board p).
Proof.
  split; [reflexivity|].
  apply (strategy_outcome Greedy example_board None (cells 3) example_board).
  - apply wf_example_board.
  - discriminate.
  - reflexivity.
Defined.

Lemma human_move_check_witness :
  legal_set (Some (0, 0)) example_after_opening =
    (Ok [(0, 1); (0, 2); (1, 0); (2, 0)], example_after_opening) /\
  (human_accepts example_after_opening (Some (0, 0)) (1, 1) = true <->
     In (1, 1) [(0, 1); (0, 2); (1, 0); (2, 0)]).
Proof.
  split; [reflexivity|].
  apply (human_move_check example_after_opening (Some (0, 0)) (1, 1)
           [(0, 1); (0, 2); (1, 0); (2, 0)] example_after_opening).
  - apply wf_example_after_opening.
  - intros p [= <-]. reflexivity.
  - reflexivity.
Defined.

Lemma game_score_accounting_witness :
  game_steps (Computer Greedy) (Computer MaximizeFutureMin) 1 example_start
    (mkGame (removed_board example_board (2, 2)) (Some (2, 2)) PB 9 0 1) /\
  let st := mkGame (removed_board example_board (2, 2)) (Some (2, 2)) PB 9 0 1 in
  a_score st + b_score st + board_total (gs_board st) =
    a_score example_start + b_score example_start + board_total (gs_board example_start) /\
  round_num st = round_num example_start + Z.of_nat 1 /\
  (avail_count (gs_board st) + 1 = avail_count (gs_board example_start))%nat.
Proof.
  assert (Hs : game_steps (Computer Greedy) (Computer MaximizeFutureMin) 1 example_start
                 (mkGame (removed_board example_board (2, 2)) (Some (2, 2)) PB 9 0 1))
    by (eapply steps_cons; [apply example_first_step | apply steps_refl]).
  split; [exact Hs|].
  apply (game_score_accounting (Computer Greedy) (Computer MaximizeFutureMin) 1 example_start _).
  - apply example_start_inv.
  - exact Hs.
Defined.

Lemma game_turn_bookkeeping_witness :
  game_steps (Computer Greedy) (Computer MaximizeFutureMin) 1 example_start
    (mkGame (removed_board example_board (2, 2)) (Some (2, 2)) PB 9 0 1) /\
  last_removed_pos (gs_board example_start) = gs_last example_start /\
  let st := mkGame (removed_board example_board (2, 2)) (Some (2, 2)) PB 9 0 1 in
  last_removed_pos (gs_board st) = gs_last st /\
  gs_current st = (if Nat.even 1 then gs_current example_start else other (gs_current example_start)) /\
  ((0 < 1)%nat -> exists p, gs_last st = Some p /\ in_bounds (gs_board st) p = true /\
                            cell (gs_board st) p.1 p.2 = None).
Proof.
  assert (Hs : game_steps (Computer Greedy) (Computer MaximizeFutureMin) 1 example_start
                 (mkGame (removed_board example_board (2, 2)) (Some (2, 2)) PB 9 0 1))
    by (eapply steps_cons; [apply example_first_step | apply steps_refl]).
  split; [exact Hs|]. split; [reflexivity|].
  apply (game_turn_bookkeeping (Computer Greedy) (Computer MaximizeFutureMin) 1 example_start _).
  - apply example_start_inv.
  - reflexivity.
  - exact Hs.
Defined.

Lemma game_move_legal_witness :
  game_step (Computer Greedy) (Computer MaximizeFutureMin) example_start
    (mkGame (removed_board example_board (2, 2)) (Some (2, 2)) PB 9 0 1) /\
  exists move allowed b1, legal_set (gs_last example_start) (gs_board example_start) = (Ok allowed, b1) /\
    In move allowed /\ Some (2, 2) = Some move /\
    removed_board example_board (2, 2) = removed_board (gs_board example_start) move.
Proof.
  split; [apply example_first_step|].
  apply (game_move_legal (Computer Greedy) (Computer MaximizeFutureMin) example_start
           (mkGame (removed_board example_board (2, 2)) (Some (2, 2)) PB 9 0 1)).
  - apply example_start_inv.
  - apply example_first_step.
Defined.

Lemma parse_move_padded_witness :
  spaces (lit " ") /\ spaces [] /\
  _parse_move_input (lit " " ++ py_str (1 + 1) ++ [] ++ lit "," ++ lit " " ++ py_str (2 + 1) ++ []) =
    Some (1, 2).
Proof.
  assert (Hsp : spaces (lit " ")) by (apply List.Forall_cons; [reflexivity | apply List.Forall_nil]).
  assert (Hnil : spaces []) by apply List.Forall_nil.
  split; [exact Hsp|]. split; [exact Hnil|].
  apply (parse_move_padded 1 2 (lit " ") [] (lit " ") []); assumption.
Defined.

Ltac text_field_ok :=
  split; [unfold ascii_text; repeat (apply List.Forall_cons; [vm_compute; lia|]); apply List.Forall_nil|];
  split; [reflexivity|];
  split; apply (bool_decide_eq_false_1 _); vm_compute; reflexivity.

Lemma save_load_roundtrip_witness :
  text_field (lit "C_VS_C") /\ text_field (lit "Greedy") /\ text_field (lit "PreserveHighValues") /\
  load_config (save_config_text example_config (lit "MANUAL") (Some 7) (Some [1; 2; 3; 4])) =
  Some (mkConfig 2 (lit "C_VS_C") (Some (lit "Greedy")) (Some (lit "PreserveHighValues"))
          None (Some [1; 2; 3; 4]) (lit "B")).
Proof.
  split; [text_field_ok|]. split; [text_field_ok|]. split; [text_field_ok|].
  apply (save_load_roundtrip example_config (lit "MANUAL") (Some 7) (Some [1; 2; 3; 4])).
  - text_field_ok.
  - text_field_ok.
  - text_field_ok.
  - right. reflexivity.
  - right. reflexivity.
Defined.

Lemma save_read_state_roundtrip_witness :
  text_field (lit "C_VS_C") /\
  read_state (save_config_text example_config (lit "RANDOM") (Some 7) (Some [1; 2; 3; 4])) =
  mkPresetState (lit "RANDOM") (Some 7) (Some [1; 2; 3; 4]).
Proof.
  split; [text_field_ok|].
  apply (save_read_state_roundtrip example_config (lit "RANDOM") (Some 7) (Some [1; 2; 3; 4])).
  - text_field_ok.
  - text_field_ok.
  - text_field_ok.
  - right. reflexivity.
  - left. reflexivity.
Defined.

Lemma load_config_shape_witness :
  load_config (save_config_text example_config (lit "RANDOM") (Some 7) None) =
    Some (mkConfig 2 (lit "C_VS_C") (Some (lit "Greedy")) (Some (lit "PreserveHighValues"))
            (Some 7) None (lit "B")) /\
  (Some (7 : Z) = None \/ (None : option (list Z)) = None) /\
  (lit "B" = lit "A" \/ lit "B" = lit "B").
Proof.
  assert (H : load_config (save_config_text example_config (lit "RANDOM") (Some 7) None) =
    Some (mkConfig 2 (lit "C_VS_C") (Some (lit "Greedy")) (Some (lit "PreserveHighValues"))
            (Some 7) None (lit "B"))) by (vm_compute; reflexivity).
  split; [exact H|].
  exact (load_config_shape _ _ H).
Defined.

Lemma strategy_submenu_registered_witness :
  strategy_submenu_step (lit " 2 ") = SetAttr (Some (lit "MaximizeFutureMin")) /\
  exists s, get_strategy (lit "MaximizeFutureMin") = Ok s /\ strategy_name s = lit "MaximizeFutureMin".
Proof.
  assert (H : strategy_submenu_step (lit " 2 ") = SetAttr (Some (lit "MaximizeFutureMin")))
    by (vm_compute; reflexivity).
  split; [exact H|].
  exact (strategy_submenu_registered _ _ H).
Defined.

Lemma save_validation_start_game_witness :
  save_validation (lit "h_vs_c") (Some (lit "Greedy")) None = true /\
  (py_upper (lit "h_vs_c") = lit "H_VS_C" /\ (None : option str) = None ->
     start_game_controllers (lit "h_vs_c") (Some (lit "Greedy")) None = Exc ValueError) /\
  (~ (py_upper (lit "h_vs_c") = lit "H_VS_C" /\ (None : option str) = None) ->
     exists ctrl_A ctrl_B,
       start_game_controllers (lit "h_vs_c") (Some (lit "Greedy")) None = Ok (ctrl_A, ctrl_B)).
Proof.
  split; [vm_compute; reflexivity|].
  apply (save_validation_start_game (lit "h_vs_c") (Some (lit "Greedy")) None).
  - vm_compute. reflexivity.
  - intros n [= <-]. exists Greedy. vm_compute. reflexivity.
  - intros n Hn. discriminate Hn.
Defined.

Lemma print_board_single_mark_witness :
  wf example_after_opening /\
  exists rows, print_board example_after_opening = (Ok rows, example_after_opening) /\
    length rows = Z.to_nat (size example_after_opening) /\
    count_char (ch "X") (concat rows) =
    match last_removed_pos example_after_opening with
    | Some p => if in_bounds example_after_opening p && negb (present example_after_opening p)
                then 1%nat else 0%nat
    | None => 0%nat
    end.
Proof.
  split; [apply wf_example_after_opening|].
  apply (print_board_single_mark example_after_opening). apply wf_example_after_opening.
Defined.

Lemma submenu_board_size_preset_witness :
  submenu_board_size_step (lit "3") (mkPresetState (lit "MANUAL") None (Some [1; 2; 3; 4])) =
    SizeSet 3 (mkPresetState (lit "RANDOM") None None) /\
  2 <= 3 /\
  (forall pb, st_preset_board_raw (mkPresetState (lit "RANDOM") None None) = Some pb ->
     pb = [] \/ Z.of_nat (length pb) = 3 * 3) /\
  st_seed_raw (mkPresetState (lit "RANDOM") None None) =
    st_seed_raw (mkPresetState (lit "MANUAL") None (Some [1; 2; 3; 4])).
Proof.
  assert (H : submenu_board_size_step (lit "3") (mkPresetState (lit "MANUAL") None (Some [1; 2; 3; 4])) =
    SizeSet 3 (mkPresetState (lit "RANDOM") None None)) by (vm_compute; reflexivity).
  split; [exact H|].
  exact (submenu_board_size_preset _ _ _ _ H).
Defined.
